(** * Cgroup path formatters and cgroup-driver detection of the koordlet

    A shallow embedding of [pkg/koordlet/util/system/cgroup_driver.go].
    Go strings are byte strings and are embedded as [string]; Go [int]
    lengths and slice bounds are embedded as [Z]; a Go [error] is its
    message, [None] standing for [nil]. *)

From Stdlib Require Import ZArith List Bool String Ascii Lia.
Import ListNotations.

Local Open Scope string_scope.
Local Open Scope Z_scope.

(** ** Go built-ins used by the file *)

(** [len(s)] *)
Definition len (s : string) : Z := Z.of_nat (String.length s).

(** The slice expression [s[lo:hi]].  The Go runtime panics when the bounds
    are out of range; [None] stands for that panic. *)
Definition slice (s : string) (lo hi : Z) : option string :=
  if (0 <=? lo) && (lo <=? hi) && (hi <=? len s)
  then Some (substring (Z.to_nat lo) (Z.to_nat (hi - lo)) s)
  else None.

(** [error]: [nil] is [None], any other error is its message. *)
Definition error : Type := option string.

(** [err == nil] *)
Definition isNil (e : error) : bool :=
  match e with
  | Some _ => false
  | None => true
  end.

(** [p != nil] for a pointer embedded as an option. *)
Definition isSome {A : Type} (o : option A) : bool :=
  match o with
  | Some _ => true
  | None => false
  end.

(** The verb [%v] applied to an [error]. *)
Definition fmt_v (e : error) : string :=
  match e with
  | Some msg => msg
  | None => "<nil>"
  end.

(** How a call that may panic ends: it returns its value, or it panics with
    a value (kept as its text) and nothing after it runs. *)
Inductive outcome (A : Type) : Type :=
  | Returns (a : A)
  | Panics (v : string).

Arguments Returns {A} a.
Arguments Panics {A} v.

(** ** The functions of Go's [strings] package that the file calls *)

Module strings.

(** [s[n:]] for [n] within bounds, the empty string beyond. *)
Fixpoint drop (n : nat) (s : string) : string :=
  match n, s with
  | O, _ => s
  | S _, EmptyString => EmptyString
  | S n', String _ s' => drop n' s'
  end.

(** [HasPrefix]: [len(s) >= len(prefix) && s[:len(prefix)] == prefix]. *)
Definition HasPrefix (s prefix : string) : bool :=
  (len prefix <=? len s) && (substring 0 (String.length prefix) s =? prefix)%string.

(** [HasSuffix]: [len(s) >= len(suffix) && s[len(s)-len(suffix):] == suffix]. *)
Definition HasSuffix (s suffix : string) : bool :=
  (len suffix <=? len s)
  && (substring (String.length s - String.length suffix) (String.length suffix) s
      =? suffix)%string.

(** [Index]: the position of the first instance of [sep] in [s]; [None] is
    Go's [-1]. *)
Fixpoint Index (s sep : string) : option nat :=
  if HasPrefix s sep then Some O
  else match s with
       | EmptyString => None
       | String _ s' => option_map S (Index s' sep)
       end.

(** [Contains]: [Index(s, substr) >= 0]. *)
Definition Contains (s substr : string) : bool :=
  match Index s substr with
  | Some _ => true
  | None => false
  end.

(** The loop of [Count]: find the next instance, step over it, count.
    For a non-empty [sep] every round consumes at least one byte, so
    [len(s)] rounds are enough. *)
Fixpoint count_loop (rounds : nat) (s sep : string) : nat :=
  match rounds with
  | O => O
  | S r =>
      match Index s sep with
      | None => O
      | Some i => S (count_loop r (drop (i + String.length sep) s) sep)
      end
  end.

(** [Count]: the number of non-overlapping instances of a non-empty [sep]. *)
Definition Count (s sep : string) : nat :=
  count_loop (String.length s) s sep.

(** The loop of [genSplit]: at most [n] cuts, each at the next instance of
    [sep]; what is left is the last element. *)
Fixpoint genSplit (n : nat) (s sep : string) : list string :=
  match n with
  | O => [s]
  | S n' =>
      match Index s sep with
      | None => [s]
      | Some m =>
          substring 0 m s :: genSplit n' (drop (m + String.length sep) s) sep
      end
  end.

(** [Split(s, sep)] for a non-empty [sep]: [genSplit] with [Count(s, sep)]
    cuts.  (The file only splits on ["://"].) *)
Definition Split (s sep : string) : list string :=
  genSplit (Count s sep) s sep.

(** The loop of [Replace]: copy up to the next instance of [old], write
    [new], step over the instance. *)
Fixpoint replace_loop (n : nat) (s old new : string) : string :=
  match n with
  | O => s
  | S n' =>
      match Index s old with
      | None => s
      | Some j =>
          substring 0 j s ++ new
            ++ replace_loop n' (drop (j + String.length old) s) old new
      end
  end.

(** [ReplaceAll(s, old, new)] for a non-empty [old]: every non-overlapping
    instance replaced.  (The file only replaces ["-"].) *)
Definition ReplaceAll (s old new : string) : string :=
  replace_loop (Count s old) s old new.

End strings.

(** ** Kubernetes QoS classes *)

(** Modelled from the spec: [corev1.PodQOSClass] and its three constants are
    declared in k8s.io/api/core/v1, outside the file; the class is a string
    type and the constants are the names the spec gives them. *)
Definition PodQOSClass : Type := string.
Definition PodQOSGuaranteed : PodQOSClass := "Guaranteed".
Definition PodQOSBurstable : PodQOSClass := "Burstable".
Definition PodQOSBestEffort : PodQOSClass := "BestEffort".

(** ** Constants of the file *)

Definition CgroupDriverType : Type := string.

Definition Cgroupfs : CgroupDriverType := "cgroupfs".
Definition Systemd : CgroupDriverType := "systemd".
Definition kubeletDefaultCgroupDriver : CgroupDriverType := Cgroupfs.

Definition KubeRootNameSystemd := "kubepods.slice/".
Definition KubeBurstableNameSystemd := "kubepods-burstable.slice/".
Definition KubeBesteffortNameSystemd := "kubepods-besteffort.slice/".

Definition KubeRootNameCgroupfs := "kubepods/".
Definition KubeBurstableNameCgroupfs := "burstable/".
Definition KubeBesteffortNameCgroupfs := "besteffort/".

Definition RuntimeTypeDocker := "docker".
Definition RuntimeTypeContainerd := "containerd".
Definition RuntimeTypeUnknown := "unknown".

Definition Validate (c : CgroupDriverType) : bool :=
  let s := c in
  (s =? Cgroupfs)%string || (s =? Systemd)%string.

(** ** The formatter *)

(** A parser either returns its pair [(id, err)] or panics in a slice
    expression ([None]). *)
Record Formatter : Type := {
  ParentDir : string;
  QOSDirFn : PodQOSClass -> string;
  PodDirFn : PodQOSClass -> string -> string;
  ContainerDirFn : string -> string * string * error;
  PodIDParser : string -> option (string * error);
  ContainerIDParser : string -> option (string * error)
}.

(** An entry of the [patterns] tables of the systemd parsers. *)
Record pattern : Type := { prefix : string; suffix : string }.

(** The [for i := range patterns] loop shared by the two systemd parsers:
    the first pattern whose prefix and suffix both match decides; when none
    matches the parser returns [("", notfound)]. *)
Fixpoint match_patterns (patterns : list pattern) (basename : string)
    (notfound : string) : option (string * error) :=
  match patterns with
  | [] => Some ("", Some notfound)
  | p :: rest =>
      if strings.HasPrefix basename (prefix p) && strings.HasSuffix basename (suffix p)
      then match slice basename (len (prefix p)) (len basename - len (suffix p)) with
           | Some id => Some (id, None)
           | None => None
           end
      else match_patterns rest basename notfound
  end.

(** [ContainerDirFn] of both formatters: they differ only in how the hash is
    written for each runtime. *)
Definition containerDir (docker containerd : string -> string) (id : string)
    : string * string * error :=
  let hashID := strings.Split id "://" in
  if (Z.of_nat (List.length hashID) <? 2)
  then (RuntimeTypeUnknown, "", Some ("parse container id " ++ id ++ " failed"))
  else
    let h0 := nth 0 hashID "" in
    let h1 := nth 1 hashID "" in
    if (h0 =? RuntimeTypeDocker)%string then (RuntimeTypeDocker, docker h1, None)
    else if (h0 =? RuntimeTypeContainerd)%string
    then (RuntimeTypeContainerd, containerd h1, None)
    else (RuntimeTypeUnknown, "", Some ("unknown container protocol " ++ id)).

Definition cgroupPathFormatterInSystemd : Formatter := {|
  ParentDir := KubeRootNameSystemd;
  QOSDirFn := fun qos =>
    if (qos =? PodQOSBurstable)%string then KubeBurstableNameSystemd
    else if (qos =? PodQOSBestEffort)%string then KubeBesteffortNameSystemd
    else if (qos =? PodQOSGuaranteed)%string then "/"
    else "/";
  PodDirFn := fun qos podUID =>
    let id := strings.ReplaceAll podUID "-" "_" in
    if (qos =? PodQOSBurstable)%string
    then "kubepods-burstable-pod" ++ id ++ ".slice/"
    else if (qos =? PodQOSBestEffort)%string
    then "kubepods-besteffort-pod" ++ id ++ ".slice/"
    else if (qos =? PodQOSGuaranteed)%string
    then "kubepods-pod" ++ id ++ ".slice/"
    else "/";
  ContainerDirFn :=
    containerDir (fun h => "docker-" ++ h ++ ".scope")
                 (fun h => "cri-containerd-" ++ h ++ ".scope");
  PodIDParser := fun basename =>
    match_patterns
      [ {| prefix := "kubepods-besteffort-pod"; suffix := ".slice" |};
        {| prefix := "kubepods-burstable-pod"; suffix := ".slice" |};
        {| prefix := "kubepods-pod"; suffix := ".slice" |} ]
      basename ("fail to parse pod id: " ++ basename);
  ContainerIDParser := fun basename =>
    match_patterns
      [ {| prefix := "docker-"; suffix := ".scope" |};
        {| prefix := "cri-containerd-"; suffix := ".scope" |} ]
      basename ("fail to parse pod id: " ++ basename)
|}.

Definition cgroupPathFormatterInCgroupfs : Formatter := {|
  ParentDir := KubeRootNameCgroupfs;
  QOSDirFn := fun qos =>
    if (qos =? PodQOSBurstable)%string then KubeBurstableNameCgroupfs
    else if (qos =? PodQOSBestEffort)%string then KubeBesteffortNameCgroupfs
    else if (qos =? PodQOSGuaranteed)%string then "/"
    else "/";
  PodDirFn := fun _ podUID => "pod" ++ podUID ++ "/";
  ContainerDirFn := containerDir (fun h => h) (fun h => h);
  PodIDParser := fun basename =>
    if strings.HasPrefix basename "pod"
    then match slice basename (len "pod") (len basename) with
         | Some id => Some (id, None)
         | None => None
         end
    else Some ("", Some ("fail to parse pod id: " ++ basename));
  ContainerIDParser := fun basename => Some (basename, None)
|}.

(** ** Process state and the outside world *)

Inductive severity : Type := Info | Warning | Error.

(** What the process does that is visible from outside: a line written
    through klog, or a call to the cluster. *)
Inductive event : Type :=
  | Klog (sev : severity) (msg : string)
  | CallGetConfig
  | CallNodesGet (nodeName : string)
  | CallKubeletPort (port : Z).

(** The package-level variable [CgroupPathFormatter] and the events so far. *)
Record process : Type := {
  CgroupPathFormatter : Formatter;
  events : list event
}.

(** A process whose active formatter is [f] and that has done nothing yet. *)
Definition seeded (f : Formatter) : process :=
  {| CgroupPathFormatter := f; events := [] |}.

(** State passing over [process]. *)
Definition M (A : Type) : Type := process -> A * process.

Definition ret {A : Type} (a : A) : M A := fun p => (a, p).

Definition bind {A B : Type} (c : M A) (k : A -> M B) : M B :=
  fun p => let (a, p') := c p in k a p'.

Notation "x <- c ;; k" := (bind c (fun x => k))
  (at level 61, c at next level, right associativity).
Notation "c ;;; k" := (bind c (fun _ => k))
  (at level 61, right associativity).

Definition emit (e : event) : M unit :=
  fun p => (tt, {| CgroupPathFormatter := CgroupPathFormatter p;
                   events := events p ++ [e] |}).

Module klog.
Definition Infof (msg : string) : M unit := emit (Klog Info msg).
Definition Infoln (msg : string) : M unit := emit (Klog Info msg).
Definition Warningf (msg : string) : M unit := emit (Klog Warning msg).
Definition Errorf (msg : string) : M unit := emit (Klog Error msg).
(** [klog.V(level).Infof]: the line is written only when the verbosity the
    process runs with reaches [level]. *)
Definition V_Infof (verbosity level : Z) (msg : string) : M unit :=
  if level <=? verbosity then emit (Klog Info msg) else ret tt.
End klog.

(** What the cluster answers during one round of the poll.  The fields
    are the results of [config.GetConfig()], of
    [clientset.NewForConfigOrDie(cfg)] on the config of the round ([None]
    when it yields a client, [Some v] when it panics with [v], the error of
    building the client), of
    [kubeClient.CoreV1().Nodes().Get(..., nodeName, ...)] (the node is
    represented by its kubelet endpoint port, [None] being a nil node) and
    of [GuessCgroupDriverFromKubeletPort(port)], which is declared in
    another file of the package. *)
Record round : Type := {
  GetConfig : error;
  NewForConfigOrDie : option string;
  NodesGet : string -> option Z * error;
  GuessCgroupDriverFromKubeletPort : Z -> CgroupDriverType * error
}.

(** The node the daemon runs on.  [GuessCgroupDriverFromCgroupName] is
    declared in another file of the package; it reads the names of the
    cgroup directories and takes no argument, so the host fixes its result.
    [first_round] and [later_rounds] are the answers of the cluster at the
    immediate call of the poll condition and at the ticks that follow, up to
    the timeout. *)
Record host : Type := {
  NODE_NAME : string;
  GuessCgroupDriverFromCgroupName : CgroupDriverType;
  first_round : round;
  later_rounds : list round
}.

Module wait.

Definition ErrWaitTimeout : string := "timed out waiting for the condition".

(** The condition is called once per round; an error stops the poll, a
    [true] ends it with [nil], and running out of rounds is the timeout.  A
    panic of the condition is not recovered: it ends the poll.  [V] is the
    variable the condition closure captures. *)
Fixpoint poll {V : Type} (condition : round -> V -> M (outcome (bool * error * V)))
    (rounds : list round) (v : V) : M (outcome (error * V)) :=
  match rounds with
  | [] => ret (Returns (Some ErrWaitTimeout, v))
  | r :: rest =>
      res <- condition r v ;;
      match res with
      | Panics x => ret (Panics x)
      | Returns (_, Some err, v') => ret (Returns (Some err, v'))
      | Returns (true, None, v') => ret (Returns (None, v'))
      | Returns (false, None, v') => poll condition rest v'
      end
  end.

(** [PollImmediate(interval, timeout, condition)]: the condition is tried
    at once and then at every tick before the timeout. *)
Definition PollImmediate {V : Type}
    (condition : round -> V -> M (outcome (bool * error * V)))
    (first : round) (later : list round) (v : V) : M (outcome (error * V)) :=
  poll condition (first :: later) v.

End wait.

(** The closure handed to [wait.PollImmediate]; [detectCgroupDriver] is the
    captured variable. *)
Definition kubeletCondition (nodeName : string) (r : round)
    (detectCgroupDriver : CgroupDriverType)
    : M (outcome (bool * error * CgroupDriverType)) :=
  emit CallGetConfig ;;;
  match GetConfig r with
  | Some err =>
      klog.Errorf ("failed to get rest config.err=" ++ err) ;;;
      ret (Returns (false, None, detectCgroupDriver))
  | None =>
      match NewForConfigOrDie r with
      | Some v => ret (Panics v)
      | None =>
          emit (CallNodesGet nodeName) ;;;
          let (node, err) := NodesGet r nodeName in
          if negb (isNil err) || negb (isSome node) then
            klog.Errorf ("Can't get node, err: " ++ fmt_v err) ;;;
            ret (Returns (false, None, detectCgroupDriver))
          else
            let port := match node with Some port => port | None => 0 end in
            emit (CallKubeletPort port) ;;;
            let (driver, err) := GuessCgroupDriverFromKubeletPort r port in
            if isNil err && Validate driver then
              let detectCgroupDriver := driver in
              ret (Returns (true, None, detectCgroupDriver))
            else
              klog.Errorf ("guess kubelet cgroup driver failed, retry...: "
                           ++ fmt_v err) ;;;
              ret (Returns (false, None, detectCgroupDriver))
      end
  end.

Definition DetectCgroupDriverFromKubelet (h : host) (nodeName : string)
    : M (outcome (CgroupDriverType * error)) :=
  let detectCgroupDriver : CgroupDriverType := "" in
  res <- wait.PollImmediate (kubeletCondition nodeName)
           (first_round h) (later_rounds h) detectCgroupDriver ;;
  match res with
  | Panics x => ret (Panics x)
  | Returns (Some pollErr, _) => ret (Returns ("", Some pollErr))
  | Returns (None, detectCgroupDriver) => ret (Returns (detectCgroupDriver, None))
  end.

Definition DetectCgroupDriver (h : host) : M (outcome CgroupDriverType) :=
  klog.Infoln "start to get cgroup driver formatter..." ;;;
  let nodeName := NODE_NAME h in
  let driver := GuessCgroupDriverFromCgroupName h in
  if Validate driver then
    klog.Infof ("Node " ++ nodeName ++ " use '" ++ driver
                ++ "' as cgroup driver according to the cgroup name") ;;;
    ret (Returns driver)
  else
    klog.Infof "can not detect cgroup driver from 'kubepods' cgroup name" ;;;
    res <- DetectCgroupDriverFromKubelet h nodeName ;;
    match res with
    | Panics x => ret (Panics x)
    | Returns (driver, None) =>
        klog.Infof ("Node " ++ nodeName ++ " use '" ++ driver
                    ++ "' as cgroup driver according to the kubelet config") ;;;
        ret (Returns driver)
    | Returns (_, Some err) =>
        klog.Errorf ("can not detect cgroup driver from kubelet, use the default, err: "
                     ++ err) ;;;
        ret (Returns Systemd)
    end.

Definition GetCgroupPathFormatter (driver : CgroupDriverType) : M Formatter :=
  if (driver =? Systemd)%string then ret cgroupPathFormatterInSystemd
  else if (driver =? Cgroupfs)%string then ret cgroupPathFormatterInCgroupfs
  else
    klog.Warningf ("cgroup driver formatter not supported: '" ++ driver ++ "'") ;;;
    ret cgroupPathFormatterInSystemd.

Definition setCgroupPathFormatter (f : Formatter) : M unit :=
  fun p => (tt, {| CgroupPathFormatter := f; events := events p |}).

Definition SetupCgroupPathFormatter (driver : CgroupDriverType) : M unit :=
  if (driver =? Systemd)%string then setCgroupPathFormatter cgroupPathFormatterInSystemd
  else if (driver =? Cgroupfs)%string then setCgroupPathFormatter cgroupPathFormatterInCgroupfs
  else klog.Warningf ("cgroup driver formatter not supported: '" ++ driver ++ "'").

(** [GetCgroupFormatter], the initial value of [CgroupPathFormatter];
    [verbosity] is the klog verbosity of the process. *)
Definition GetCgroupFormatter (verbosity : Z) (h : host) : M Formatter :=
  let nodeName := NODE_NAME h in
  let driver := GuessCgroupDriverFromCgroupName h in
  if Validate driver then
    klog.Infof ("Node " ++ nodeName ++ " use '" ++ driver
                ++ "' as cgroup driver guessed with the cgroup name") ;;;
    GetCgroupPathFormatter driver
  else
    klog.V_Infof verbosity 4 "can not guess cgroup driver from 'kubepods' cgroup name" ;;;
    ret cgroupPathFormatterInSystemd.

(** ** Vocabulary of the statements *)

(** The driver one round of the kubelet poll yields, when the round
    succeeds: the configuration is found, the client is built, the node is
    fetched, and the kubelet reports a driver that passes [Validate]. *)
Definition round_driver (nodeName : string) (r : round) : option CgroupDriverType :=
  match GetConfig r, NewForConfigOrDie r with
  | None, None =>
      match NodesGet r nodeName with
      | (Some port, None) =>
          match GuessCgroupDriverFromKubeletPort r port with
          | (driver, None) => if Validate driver then Some driver else None
          | (_, Some _) => None
          end
      | _ => None
      end
  | _, _ => None
  end.

(** The value a round of the kubelet poll panics with, when it does: the
    configuration is found and no client can be built from it. *)
Definition round_panics (r : round) : option string :=
  match GetConfig r with
  | Some _ => None
  | None => NewForConfigOrDie r
  end.

(** What the rounds of a poll come to: the first round that succeeds or
    panics decides; [Returns None] when every round fails quietly. *)
Fixpoint poll_result (nodeName : string) (rounds : list round)
    : outcome (option CgroupDriverType) :=
  match rounds with
  | [] => Returns None
  | r :: rest =>
      match round_panics r with
      | Some v => Panics v
      | None =>
          match round_driver nodeName r with
          | Some driver => Returns (Some driver)
          | None => poll_result nodeName rest
          end
      end
  end.

(** The number of rounds tried: up to the first round that succeeds or
    panics, all of them when there is none. *)
Fixpoint rounds_tried (nodeName : string) (rounds : list round) : nat :=
  match rounds with
  | [] => O
  | r :: rest =>
      match round_panics r with
      | Some _ => 1%nat
      | None =>
          match round_driver nodeName r with
          | Some _ => 1%nat
          | None => S (rounds_tried nodeName rest)
          end
      end
  end.

(** What a result of [ContainerDirFn] says about the container ID it was
    computed from: the runtime kind is ["docker"] exactly for an ID that
    starts with ["docker://"], ["containerd"] exactly for one that starts
    with ["containerd://"]; there is no error exactly when the kind is not
    ["unknown"]; an error comes with the empty directory name. *)
Definition classifies (id : string) (r : string * string * error) : Prop :=
  (fst (fst r) = RuntimeTypeDocker <-> exists rest, id = "docker://" ++ rest)
  /\ (fst (fst r) = RuntimeTypeContainerd <-> exists rest, id = "containerd://" ++ rest)
  /\ (snd r = None <-> fst (fst r) <> RuntimeTypeUnknown)
  /\ (snd r <> None -> snd (fst r) = "").

(** From [p] to [p'] the active formatter is the same and the events [es]
    were added after those of [p]. *)
Definition appends (p p' : process) (es : list event) : Prop :=
  CgroupPathFormatter p' = CgroupPathFormatter p
  /\ events p' = (events p ++ es)%list.

(** How often the events show a call to [config.GetConfig]. *)
Fixpoint config_calls (es : list event) : nat :=
  match es with
  | [] => O
  | CallGetConfig :: rest => S (config_calls rest)
  | _ :: rest => config_calls rest
  end.

(** The events are lines of the log at info level only: no warning, no
    error, no call to the cluster. *)
Fixpoint only_info (es : list event) : bool :=
  match es with
  | [] => true
  | Klog Info _ :: rest => only_info rest
  | _ :: _ => false
  end.


(** What the spec calls the UID with every hyphen replaced by an
    underscore, byte by byte. *)
Fixpoint hyphens_to_underscores (s : string) : string :=
  match s with
  | EmptyString => EmptyString
  | String c s' =>
      String (if Ascii.eqb c "-" then "_"%char else c) (hyphens_to_underscores s')
  end.

(** The three QoS classes of the pod spec. *)
Definition known_qos (qos : PodQOSClass) : Prop :=
  qos = PodQOSGuaranteed \/ qos = PodQOSBurstable \/ qos = PodQOSBestEffort.

(** [ContainerDirFn] of the two formatters, side by side. *)
Definition both_ContainerDirFn (id : string) (r : string * string * error) : Prop :=
  ContainerDirFn cgroupPathFormatterInSystemd id = r
  /\ ContainerDirFn cgroupPathFormatterInCgroupfs id = r.

(** A prefix and a suffix leave room for each other in every name that has
    both. *)
Definition apart (P : pattern) : Prop :=
  forall b : string,
    strings.HasPrefix b (prefix P) = true ->
    strings.HasSuffix b (suffix P) = true ->
    len (prefix P) + len (suffix P) <= len b.

(** A round in which the cluster cannot be reached at all. *)
Definition unreachable : round := {|
  GetConfig := Some "unable to load in-cluster configuration";
  NewForConfigOrDie := None;
  NodesGet := fun _ => (None, Some "connection refused");
  GuessCgroupDriverFromKubeletPort := fun _ => ("", Some "connection refused")
|}.

(** A round in which the kubelet reports [driver]. *)
Definition reporting (driver : CgroupDriverType) : round := {|
  GetConfig := None;
  NewForConfigOrDie := None;
  NodesGet := fun _ => (Some 10250, None);
  GuessCgroupDriverFromKubeletPort := fun _ => (driver, None)
|}.

(** A round in which a configuration is found from which no client can be
    built. *)
Definition clientless : round := {|
  GetConfig := None;
  NewForConfigOrDie :=
    Some "specifying a root certificates file with the insecure flag is not allowed";
  NodesGet := fun _ => (Some 10250, None);
  GuessCgroupDriverFromKubeletPort := fun _ => (Cgroupfs, None)
|}.

Definition node_with (guess : CgroupDriverType) (first : round) (later : list round)
    : host :=
  {| NODE_NAME := "node-1";
     GuessCgroupDriverFromCgroupName := guess;
     first_round := first;
     later_rounds := later |}.

(** * Properties *)

(** ** Strings *)

Lemma len_app (a b : string) : len (a ++ b) = len a + len b.
Proof.
  unfold len. induction a as [|c a IH]; simpl String.length.
  - reflexivity.
  - simpl in IH. lia.
Qed.

Lemma length_app (a b : string) :
  String.length (a ++ b) = (String.length a + String.length b)%nat.
Proof. induction a as [|c a IH]; simpl; [reflexivity | now rewrite IH]. Qed.

Lemma app_assoc (a b c : string) : (a ++ b) ++ c = a ++ (b ++ c).
Proof. induction a as [|x a IH]; simpl; [reflexivity | now rewrite IH]. Qed.

Lemma app_empty_r (a : string) : a ++ "" = a.
Proof. induction a as [|x a IH]; simpl; [reflexivity | now rewrite IH]. Qed.

Lemma substring_0_0 (s : string) : substring 0 0 s = "".
Proof. destruct s; reflexivity. Qed.

(** [(p ++ t)[:len(p)] = p] *)
Lemma substring_app_head (p t : string) :
  substring 0 (String.length p) (p ++ t) = p.
Proof.
  induction p as [|c p IH]; simpl.
  - apply substring_0_0.
  - now rewrite IH.
Qed.

(** Reading past a prefix reads in the rest. *)
Lemma substring_app_skip (p t : string) (n m : nat) :
  substring (String.length p + n) m (p ++ t) = substring n m t.
Proof. induction p as [|c p IH]; simpl; [reflexivity | exact IH]. Qed.

Lemma substring_whole (s : string) : substring 0 (String.length s) s = s.
Proof.
  rewrite <- (app_empty_r s) at 2. apply substring_app_head.
Qed.

Lemma drop_app (p t : string) (n : nat) :
  strings.drop (String.length p + n) (p ++ t) = strings.drop n t.
Proof. induction p as [|c p IH]; simpl; [reflexivity | exact IH]. Qed.

Lemma drop_length_le (n : nat) (s : string) :
  (String.length (strings.drop n s) <= String.length s)%nat.
Proof.
  revert s; induction n as [|n IH]; intros [|c s]; simpl; try lia.
  specialize (IH s). lia.
Qed.

Lemma HasPrefix_app (p t : string) : strings.HasPrefix (p ++ t) p = true.
Proof.
  unfold strings.HasPrefix. rewrite substring_app_head, String.eqb_refl, len_app.
  unfold len. rewrite andb_true_r. apply Z.leb_le. lia.
Qed.

Lemma HasSuffix_app (t q : string) : strings.HasSuffix (t ++ q) q = true.
Proof.
  unfold strings.HasSuffix. rewrite len_app, length_app.
  replace (String.length t + String.length q - String.length q)%nat
    with (String.length t + 0)%nat by lia.
  rewrite substring_app_skip, substring_whole, String.eqb_refl, andb_true_r.
  unfold len. apply Z.leb_le. lia.
Qed.

(** The slice between a prefix and a suffix is what stands between them. *)
Lemma slice_between (p x q : string) :
  slice (p ++ x ++ q) (len p) (len (p ++ x ++ q) - len q) = Some x.
Proof.
  unfold slice. rewrite !len_app.
  replace (len p + (len x + len q) - len q - len p) with (len x) by lia.
  replace ((0 <=? len p) && (len p <=? len p + (len x + len q) - len q)
           && (len p + (len x + len q) - len q <=? len p + (len x + len q)))
    with true.
  - unfold len. rewrite !Nat2Z.id.
    replace (String.length p) with (String.length p + 0)%nat at 1 by lia.
    now rewrite substring_app_skip, substring_app_head.
  - symmetry. unfold len. rewrite !andb_true_iff, !Z.leb_le. lia.
Qed.

(** The slice from a prefix to the end is the rest. *)
Lemma slice_after (p x : string) : slice (p ++ x) (len p) (len (p ++ x)) = Some x.
Proof.
  pose proof (slice_between p x "") as H.
  rewrite app_empty_r in H. change (len "") with 0 in H.
  now rewrite Z.sub_0_r in H.
Qed.

(** [HasPrefix] read byte by byte. *)
Lemma HasPrefix_nil (s : string) : strings.HasPrefix s "" = true.
Proof. unfold strings.HasPrefix. rewrite substring_0_0. destruct s; reflexivity. Qed.

Lemma HasPrefix_cons (b a : ascii) (s p : string) :
  strings.HasPrefix (String b s) (String a p)
  = Ascii.eqb b a && strings.HasPrefix s p.
Proof.
  unfold strings.HasPrefix, len.
  cbn [String.length substring String.eqb].
  replace (Z.of_nat (S (String.length p)) <=? Z.of_nat (S (String.length s)))
    with (Z.of_nat (String.length p) <=? Z.of_nat (String.length s)).
  - destruct (Ascii.eqb b a); [reflexivity | now rewrite andb_false_r].
  - destruct (Z.leb_spec (Z.of_nat (String.length p)) (Z.of_nat (String.length s)));
      symmetry; [apply Z.leb_le | apply Z.leb_gt]; lia.
Qed.

Lemma Index_cons (c : ascii) (s sep : string) :
  strings.Index (String c s) sep =
  if strings.HasPrefix (String c s) sep then Some O
  else option_map S (strings.Index s sep).
Proof. reflexivity. Qed.

(** An instance right at the front. *)
Lemma Index_app_front (sep t : string) : strings.Index (sep ++ t) sep = Some O.
Proof.
  destruct (sep ++ t) eqn:E; cbn [strings.Index]; rewrite <- E, HasPrefix_app;
    reflexivity.
Qed.

(** No instance in [s]: [Count] is 0 and [Split] returns [s] alone. *)
Lemma Count_absent (s sep : string) :
  strings.Index s sep = None -> strings.Count s sep = O.
Proof.
  unfold strings.Count. intros H.
  destruct (String.length s); simpl; [reflexivity | now rewrite H].
Qed.

Lemma Split_absent (s sep : string) :
  strings.Index s sep = None -> strings.Split s sep = [s].
Proof.
  intros H. unfold strings.Split. now rewrite (Count_absent _ _ H).
Qed.

Lemma genSplit_nonempty (n : nat) (s sep : string) :
  (1 <= List.length (strings.genSplit n s sep))%nat.
Proof.
  destruct n; simpl; [lia|]. destruct (strings.Index s sep); simpl; lia.
Qed.

(** A first instance of ["://"] at [m]: [Split] starts with the text before
    it and has at least one more element. *)
Lemma Split_present (s : string) (m : nat) :
  strings.Index s "://" = Some m ->
  exists n,
    strings.Split s "://" =
      substring 0 m s :: strings.genSplit n (strings.drop (m + 3) s) "://".
Proof.
  intros H. unfold strings.Split, strings.Count.
  destruct s as [|c s]; [discriminate H|].
  cbn [String.length strings.count_loop]. rewrite H.
  cbn [strings.genSplit]. rewrite H. eauto.
Qed.

(** ["://"] cannot straddle the end of a text that does not contain it. *)
Lemma Index_app_sep (a rest : string) :
  strings.Index a "://" = None ->
  strings.Index (a ++ "://" ++ rest) "://" = Some (String.length a).
Proof.
  induction a as [|c a IH]; intros H.
  - apply (Index_app_front "://").
  - rewrite Index_cons in H.
    destruct (strings.HasPrefix (String c a) "://") eqn:Hp; [discriminate H|].
    destruct (strings.Index a "://") eqn:Ha; [discriminate H|].
    change ((String c a) ++ "://" ++ rest) with (String c (a ++ "://" ++ rest)).
    rewrite Index_cons, (IH eq_refl).
    replace (strings.HasPrefix (String c (a ++ "://" ++ rest)) "://") with false;
      [reflexivity|].
    symmetry. revert Hp. clear.
    rewrite !HasPrefix_cons.
    destruct (Ascii.eqb c ":"); [|reflexivity].
    destruct a as [|d a]; cbn [String.append]; rewrite ?HasPrefix_cons;
      [reflexivity|].
    destruct (Ascii.eqb d "/"); [|reflexivity].
    destruct a as [|e a]; cbn [String.append]; rewrite ?HasPrefix_cons;
      [reflexivity|].
    rewrite !HasPrefix_nil.
    destruct (Ascii.eqb e "/"); [discriminate | reflexivity].
Qed.

(** ** Replacing hyphens *)

Lemma drop_S_length (n : nat) (c : ascii) (s : string) :
  (String.length (strings.drop (S n) (String c s)) <= String.length s)%nat.
Proof. simpl. apply drop_length_le. Qed.

(** Once the rounds cover the length, more rounds count the same. *)
Lemma count_loop_enough (c : ascii) (sep : string) (r1 r2 : nat) (s : string) :
  (String.length s <= r1)%nat -> (String.length s <= r2)%nat ->
  strings.count_loop r1 s (String c sep) = strings.count_loop r2 s (String c sep).
Proof.
  revert r2 s; induction r1 as [|r1 IH]; intros [|r2] s H1 H2;
    cbn [strings.count_loop]; try reflexivity.
  - destruct s; [reflexivity | simpl in H1; lia].
  - destruct s; [reflexivity | simpl in H2; lia].
  - destruct s as [|b s]; [reflexivity|].
    destruct (strings.Index (String b s) (String c sep)) as [i|]; [|reflexivity].
    f_equal. cbn [String.length]. rewrite Nat.add_succ_r.
    pose proof (drop_S_length (i + String.length sep) b s) as Hd.
    simpl in H1, H2. apply IH; lia.
Qed.

Lemma Index_hyphen_cons (c : ascii) (s : string) :
  strings.Index (String c s) "-" =
  if Ascii.eqb c "-" then Some O else option_map S (strings.Index s "-").
Proof.
  rewrite Index_cons, HasPrefix_cons, HasPrefix_nil, andb_true_r. reflexivity.
Qed.

Lemma count_loop_S (r : nat) (s sep : string) :
  strings.count_loop (S r) s sep =
  match strings.Index s sep with
  | None => O
  | Some i => S (strings.count_loop r (strings.drop (i + String.length sep) s) sep)
  end.
Proof. reflexivity. Qed.

Lemma Count_hyphen_cons (c : ascii) (s : string) :
  strings.Count (String c s) "-" =
  if Ascii.eqb c "-" then S (strings.Count s "-") else strings.Count s "-".
Proof.
  unfold strings.Count.
  change (String.length (String c s)) with (S (String.length s)).
  rewrite (count_loop_S (String.length s) (String c s)), Index_hyphen_cons.
  destruct (Ascii.eqb c "-"); [reflexivity|].
  destruct (strings.Index s "-") as [i|] eqn:Hi; cbn [option_map].
  - destruct s as [|b s]; [discriminate Hi|].
    change (String.length (String b s)) with (S (String.length s)).
    rewrite (count_loop_S (String.length s) (String b s)), Hi. f_equal.
    change (strings.drop (S i + String.length "-") (String c (String b s)))
      with (strings.drop (i + String.length "-") (String b s)).
    pose proof (drop_length_le (i + String.length "-") (String b s)) as Hd.
    assert (Hlt : (String.length (strings.drop (i + String.length "-") (String b s))
                   <= String.length s)%nat).
    { replace (i + String.length "-")%nat with (S i) by (simpl; lia).
      apply drop_S_length. }
    apply count_loop_enough; lia.
  - destruct (String.length s); [reflexivity|].
    now rewrite count_loop_S, Hi.
Qed.

Lemma replace_loop_keep (n : nat) (c : ascii) (s : string) :
  Ascii.eqb c "-" = false ->
  strings.replace_loop n (String c s) "-" "_"
  = String c (strings.replace_loop n s "-" "_").
Proof.
  intros Hc. destruct n as [|n]; cbn [strings.replace_loop]; [reflexivity|].
  rewrite Index_hyphen_cons, Hc.
  destruct (strings.Index s "-") as [j|]; reflexivity.
Qed.

(** [strings.ReplaceAll(podUID, "-", "_")] replaces every hyphen. *)
Lemma ReplaceAll_hyphens (s : string) :
  strings.ReplaceAll s "-" "_" = hyphens_to_underscores s.
Proof.
  unfold strings.ReplaceAll. induction s as [|c s IH]; [reflexivity|].
  rewrite Count_hyphen_cons. cbn [hyphens_to_underscores].
  destruct (Ascii.eqb c "-") eqn:Hc.
  - cbn [strings.replace_loop]. rewrite Index_hyphen_cons, Hc.
    cbn [String.length Nat.add strings.drop]. rewrite substring_0_0.
    simpl. now rewrite IH.
  - rewrite (replace_loop_keep _ _ _ Hc). now rewrite IH.
Qed.

(** ** Splitting on ["://"] *)

(** A text without ["://"], then ["://"], then the rest: the text is the
    first element and the rest is split in turn. *)
Lemma Split_app_sep (a rest : string) :
  strings.Index a "://" = None ->
  strings.Split (a ++ "://" ++ rest) "://" = a :: strings.Split rest "://".
Proof.
  intros Ha. pose proof (Index_app_sep a rest Ha) as Hi.
  unfold strings.Split, strings.Count.
  rewrite length_app. cbn [String.length String.append].
  replace (String.length a + S (S (S (String.length rest))))%nat
    with (S (String.length a + 2 + String.length rest)) by lia.
  change (String ":" (String "/" (String "/" rest))) with ("://" ++ rest) in *.
  rewrite count_loop_S, Hi. cbn [strings.genSplit]. rewrite Hi.
  change (String.length "://") with 3%nat.
  rewrite (drop_app a ("://" ++ rest) 3). cbn [strings.drop String.append].
  rewrite substring_app_head.
  rewrite (count_loop_enough ":" "//" (String.length a + 2 + String.length rest)
             (String.length rest) rest) by lia.
  reflexivity.
Qed.

Lemma Contains_false (s sep : string) :
  strings.Contains s sep = false -> strings.Index s sep = None.
Proof. unfold strings.Contains. destruct (strings.Index s sep); congruence. Qed.

(** ** [ContainerDirFn], by the shape of the split *)

Lemma containerDir_one (docker containerd : string -> string) (id x : string) :
  strings.Split id "://" = [x] ->
  containerDir docker containerd id
  = (RuntimeTypeUnknown, "", Some ("parse container id " ++ id ++ " failed")).
Proof. intros H. unfold containerDir. rewrite H. reflexivity. Qed.

Lemma containerDir_many (docker containerd : string -> string)
    (id h0 h1 : string) (l : list string) :
  strings.Split id "://" = h0 :: h1 :: l ->
  containerDir docker containerd id =
    if (h0 =? RuntimeTypeDocker)%string then (RuntimeTypeDocker, docker h1, None)
    else if (h0 =? RuntimeTypeContainerd)%string
    then (RuntimeTypeContainerd, containerd h1, None)
    else (RuntimeTypeUnknown, "", Some ("unknown container protocol " ++ id)).
Proof.
  intros H. unfold containerDir. rewrite H.
  replace (Z.of_nat (List.length (h0 :: h1 :: l)) <? 2) with false; [reflexivity|].
  symmetry. apply Z.ltb_ge. simpl List.length. lia.
Qed.

(** ** The pattern loop *)

Lemma match_patterns_hit (p q x notfound : string) (rest : list pattern) :
  match_patterns ({| prefix := p; suffix := q |} :: rest) (p ++ x ++ q) notfound
  = Some (x, None).
Proof.
  cbn [match_patterns prefix suffix].
  rewrite HasPrefix_app.
  rewrite <- (app_assoc p x q) at 1. rewrite HasSuffix_app.
  cbn [andb]. now rewrite slice_between.
Qed.

Lemma match_patterns_skip (P : pattern) (rest : list pattern) (b notfound : string) :
  strings.HasPrefix b (prefix P) = false ->
  match_patterns (P :: rest) b notfound = match_patterns rest b notfound.
Proof. intros H. cbn [match_patterns]. now rewrite H. Qed.

Lemma match_patterns_skip_suffix (P : pattern) (rest : list pattern)
    (b notfound : string) :
  strings.HasSuffix b (suffix P) = false ->
  match_patterns (P :: rest) b notfound = match_patterns rest b notfound.
Proof. intros H. cbn [match_patterns]. now rewrite H, andb_false_r. Qed.

(** ** What a matching suffix says about the last byte *)

Lemma substring_split (n : nat) (s : string) :
  (n <= String.length s)%nat ->
  s = substring 0 n s ++ substring n (String.length s - n) s.
Proof.
  revert s; induction n as [|n IH]; intros s H.
  - rewrite substring_0_0, Nat.sub_0_r, substring_whole. reflexivity.
  - destruct s as [|c s]; [simpl in H; lia|].
    simpl in H. cbn [substring String.length String.append Nat.sub].
    f_equal. apply IH. lia.
Qed.

Lemma HasSuffix_inv (s q : string) :
  strings.HasSuffix s q = true -> exists t, s = t ++ q.
Proof.
  unfold strings.HasSuffix, len. intros H.
  apply andb_true_iff in H. destruct H as [Hl Hq].
  apply Z.leb_le in Hl. apply String.eqb_eq in Hq.
  exists (substring 0 (String.length s - String.length q) s).
  assert (Hn : (String.length s - String.length q <= String.length s)%nat) by lia.
  pose proof (substring_split _ s Hn) as Hs.
  replace (String.length s - (String.length s - String.length q))%nat
    with (String.length q) in Hs by lia.
  now rewrite Hq in Hs.
Qed.

Lemma app_last_inj (t u : string) (c d : ascii) :
  t ++ String c "" = u ++ String d "" -> c = d.
Proof.
  revert u; induction t as [|x t IH]; intros [|y u] H; simpl in H.
  - congruence.
  - injection H as _ H. destruct u; discriminate H.
  - injection H as _ H. destruct t; discriminate H.
  - injection H as _ H. eauto.
Qed.

(** A name that ends in ["/"] does not end in [".slice"]. *)
Lemma HasSuffix_slash_slice (t : string) :
  strings.HasSuffix (t ++ "/") ".slice" = false.
Proof.
  destruct (strings.HasSuffix (t ++ "/") ".slice") eqn:H; [|reflexivity].
  apply HasSuffix_inv in H. destruct H as [u H].
  change ".slice" with (".slic" ++ "e") in H. rewrite <- app_assoc in H.
  apply app_last_inj in H. discriminate H.
Qed.

(** * Formatters and parsers *)

(** The systemd slice name of a pod, without the trailing ["/"]. *)
Lemma systemd_PodDirFn_known (qos : PodQOSClass) (uid : string) :
  known_qos qos ->
  exists p,
    In p ["kubepods-pod"; "kubepods-burstable-pod"; "kubepods-besteffort-pod"]
    /\ PodDirFn cgroupPathFormatterInSystemd qos uid
       = (p ++ hyphens_to_underscores uid ++ ".slice") ++ "/".
Proof.
  intros [-> | [-> | ->]]; cbn [PodDirFn cgroupPathFormatterInSystemd];
    rewrite ReplaceAll_hyphens.
  - exists "kubepods-pod". split; [simpl; auto|].
    rewrite !app_assoc. reflexivity.
  - exists "kubepods-burstable-pod". split; [simpl; auto|].
    rewrite !app_assoc. reflexivity.
  - exists "kubepods-besteffort-pod". split; [simpl; auto|].
    rewrite !app_assoc. reflexivity.
Qed.

(** The systemd pod parser on a slice name built from any of the three
    templates. *)
Lemma systemd_PodIDParser_slice (p id : string) :
  In p ["kubepods-pod"; "kubepods-burstable-pod"; "kubepods-besteffort-pod"] ->
  PodIDParser cgroupPathFormatterInSystemd (p ++ id ++ ".slice") = Some (id, None).
Proof.
  intros [<- | [<- | [<- | []]]]; cbn [PodIDParser cgroupPathFormatterInSystemd].
  - rewrite match_patterns_skip
      by (cbn [prefix String.append]; rewrite !HasPrefix_cons; reflexivity).
    rewrite match_patterns_skip
      by (cbn [prefix String.append]; rewrite !HasPrefix_cons; reflexivity).
    apply match_patterns_hit.
  - rewrite match_patterns_skip
      by (cbn [prefix String.append]; rewrite !HasPrefix_cons; reflexivity).
    apply match_patterns_hit.
  - apply match_patterns_hit.
Qed.

(** The systemd pod parser on any name that ends in ["/"]: no pattern
    matches. *)
Lemma systemd_PodIDParser_slash (t : string) :
  PodIDParser cgroupPathFormatterInSystemd (t ++ "/")
  = Some ("", Some ("fail to parse pod id: " ++ t ++ "/")).
Proof.
  cbn [PodIDParser cgroupPathFormatterInSystemd].
  rewrite !match_patterns_skip_suffix by apply HasSuffix_slash_slice.
  reflexivity.
Qed.

(** The cgroupfs pod parser strips ["pod"] and nothing else. *)
Lemma cgroupfs_PodIDParser_pod (x : string) :
  PodIDParser cgroupPathFormatterInCgroupfs ("pod" ++ x) = Some (x, None).
Proof.
  cbn [PodIDParser cgroupPathFormatterInCgroupfs].
  rewrite HasPrefix_app, slice_after. reflexivity.
Qed.

(** C1, as stated, fails: the directory name [PodDirFn] returns ends in
    ["/"], and on it the cgroupfs parser returns the UID followed by ["/"]
    while the systemd parser returns an error. *)
Lemma C1_PodDirFn_PodIDParser_counterexample :
  PodIDParser cgroupPathFormatterInCgroupfs
    (PodDirFn cgroupPathFormatterInCgroupfs PodQOSBurstable "abc-123-def")
  = Some ("abc-123-def/", None)
  /\ PodIDParser cgroupPathFormatterInCgroupfs
       (PodDirFn cgroupPathFormatterInCgroupfs PodQOSBurstable "abc-123-def")
     <> Some ("abc-123-def", None)
  /\ PodIDParser cgroupPathFormatterInSystemd
       (PodDirFn cgroupPathFormatterInSystemd PodQOSBurstable "abc-123-def")
     = Some ("", Some "fail to parse pod id: kubepods-burstable-podabc_123_def.slice/")
  /\ PodIDParser cgroupPathFormatterInSystemd
       (PodDirFn cgroupPathFormatterInSystemd PodQOSBurstable "abc-123-def")
     <> Some (hyphens_to_underscores "abc-123-def", None).
Proof.
  repeat split; try (vm_compute; reflexivity); vm_compute; discriminate.
Qed.

(** C1 (amended): for every QoS class in {Guaranteed, Burstable, BestEffort}
    and every pod UID, the directory name returned by [PodDirFn] is a
    basename followed by ["/"], and [PodIDParser] applied to that basename
    returns, without error, the UID under the cgroupfs convention and the UID
    with every hyphen replaced by an underscore under the systemd convention.
    Applied to the directory name itself, with its ["/"], the cgroupfs parser
    returns the UID followed by ["/"] and the systemd parser returns an
    error. *)
Theorem C1_PodDirFn_PodIDParser_basename (qos : PodQOSClass) (uid : string) :
  known_qos qos ->
  (exists base,
      PodDirFn cgroupPathFormatterInCgroupfs qos uid = base ++ "/"
      /\ PodIDParser cgroupPathFormatterInCgroupfs base = Some (uid, None)
      /\ PodIDParser cgroupPathFormatterInCgroupfs (base ++ "/")
         = Some (uid ++ "/", None))
  /\ (exists base,
      PodDirFn cgroupPathFormatterInSystemd qos uid = base ++ "/"
      /\ PodIDParser cgroupPathFormatterInSystemd base
         = Some (hyphens_to_underscores uid, None)
      /\ PodIDParser cgroupPathFormatterInSystemd (base ++ "/")
         = Some ("", Some ("fail to parse pod id: " ++ base ++ "/"))).
Proof.
  intros Hq. split.
  - exists ("pod" ++ uid). split; [|split].
    + symmetry. apply (app_assoc "pod" uid "/").
    + apply cgroupfs_PodIDParser_pod.
    + rewrite (app_assoc "pod" uid "/"). apply cgroupfs_PodIDParser_pod.
  - destruct (systemd_PodDirFn_known qos uid Hq) as [p [Hp E]].
    exists (p ++ hyphens_to_underscores uid ++ ".slice"). split; [|split].
    + exact E.
    + now apply systemd_PodIDParser_slice.
    + apply systemd_PodIDParser_slash.
Qed.

Lemma C1_PodDirFn_PodIDParser_basename_witness :
  known_qos PodQOSBurstable
  /\ ((exists base,
        PodDirFn cgroupPathFormatterInCgroupfs PodQOSBurstable "abc-123-def"
        = base ++ "/"
        /\ PodIDParser cgroupPathFormatterInCgroupfs base
           = Some ("abc-123-def", None)
        /\ PodIDParser cgroupPathFormatterInCgroupfs (base ++ "/")
           = Some ("abc-123-def" ++ "/", None))
      /\ (exists base,
        PodDirFn cgroupPathFormatterInSystemd PodQOSBurstable "abc-123-def"
        = base ++ "/"
        /\ PodIDParser cgroupPathFormatterInSystemd base
           = Some (hyphens_to_underscores "abc-123-def", None)
        /\ PodIDParser cgroupPathFormatterInSystemd (base ++ "/")
           = Some ("", Some ("fail to parse pod id: " ++ base ++ "/")))).
Proof.
  assert (H : known_qos PodQOSBurstable) by (right; left; reflexivity).
  split; [exact H|].
  exact (C1_PodDirFn_PodIDParser_basename PodQOSBurstable "abc-123-def" H).
Defined.

(** The systemd container parser on the two scope names. *)
Lemma systemd_ContainerIDParser_docker (x : string) :
  ContainerIDParser cgroupPathFormatterInSystemd ("docker-" ++ x ++ ".scope")
  = Some (x, None).
Proof. apply match_patterns_hit. Qed.

Lemma systemd_ContainerIDParser_containerd (x : string) :
  ContainerIDParser cgroupPathFormatterInSystemd ("cri-containerd-" ++ x ++ ".scope")
  = Some (x, None).
Proof.
  cbn [ContainerIDParser cgroupPathFormatterInSystemd].
  rewrite match_patterns_skip
    by (cbn [prefix String.append]; rewrite !HasPrefix_cons; reflexivity).
  apply match_patterns_hit.
Qed.

Lemma Index_docker : strings.Index "docker" "://" = None.
Proof. reflexivity. Qed.

Lemma Index_containerd : strings.Index "containerd" "://" = None.
Proof. reflexivity. Qed.

(** C2: for every container ID ["docker://X"] or ["containerd://X"] where
    [X] contains neither ["/"] nor ["://"], [ContainerDirFn] succeeds and
    [ContainerIDParser] applied to the directory name it returns gives back
    [X] without error: under systemd the name is ["docker-X.scope"] or
    ["cri-containerd-X.scope"], under cgroupfs it is [X] itself. *)
Theorem C2_ContainerDirFn_ContainerIDParser (X : string) :
  strings.Contains X "/" = false ->
  strings.Contains X "://" = false ->
  (ContainerDirFn cgroupPathFormatterInSystemd ("docker://" ++ X)
   = ("docker", "docker-" ++ X ++ ".scope", None)
   /\ ContainerIDParser cgroupPathFormatterInSystemd ("docker-" ++ X ++ ".scope")
      = Some (X, None))
  /\ (ContainerDirFn cgroupPathFormatterInSystemd ("containerd://" ++ X)
      = ("containerd", "cri-containerd-" ++ X ++ ".scope", None)
      /\ ContainerIDParser cgroupPathFormatterInSystemd
           ("cri-containerd-" ++ X ++ ".scope")
         = Some (X, None))
  /\ (ContainerDirFn cgroupPathFormatterInCgroupfs ("docker://" ++ X)
      = ("docker", X, None)
      /\ ContainerDirFn cgroupPathFormatterInCgroupfs ("containerd://" ++ X)
         = ("containerd", X, None)
      /\ ContainerIDParser cgroupPathFormatterInCgroupfs X = Some (X, None)).
Proof.
  intros _ HX. apply Contains_false in HX.
  assert (Hd : strings.Split ("docker://" ++ X) "://" = ["docker"; X]).
  { change ("docker://" ++ X) with ("docker" ++ "://" ++ X).
    rewrite (Split_app_sep "docker" X Index_docker).
    now rewrite (Split_absent _ _ HX). }
  assert (Hc : strings.Split ("containerd://" ++ X) "://" = ["containerd"; X]).
  { change ("containerd://" ++ X) with ("containerd" ++ "://" ++ X).
    rewrite (Split_app_sep "containerd" X Index_containerd).
    now rewrite (Split_absent _ _ HX). }
  cbn [ContainerDirFn ContainerIDParser cgroupPathFormatterInSystemd
         cgroupPathFormatterInCgroupfs].
  rewrite !(containerDir_many _ _ _ _ _ _ Hd), !(containerDir_many _ _ _ _ _ _ Hc).
  repeat split.
  - apply systemd_ContainerIDParser_docker.
  - apply systemd_ContainerIDParser_containerd.
Qed.

Lemma C2_ContainerDirFn_ContainerIDParser_witness :
  strings.Contains "deadbeef" "/" = false
  /\ strings.Contains "deadbeef" "://" = false
  /\ ContainerDirFn cgroupPathFormatterInSystemd ("docker://" ++ "deadbeef")
     = ("docker", "docker-" ++ "deadbeef" ++ ".scope", None)
  /\ ContainerIDParser cgroupPathFormatterInCgroupfs "deadbeef"
     = Some ("deadbeef", None).
Proof.
  assert (H1 : strings.Contains "deadbeef" "/" = false) by reflexivity.
  assert (H2 : strings.Contains "deadbeef" "://" = false) by reflexivity.
  pose proof (C2_ContainerDirFn_ContainerIDParser "deadbeef" H1 H2) as H.
  split; [exact H1|]. split; [exact H2|].
  split; [exact (proj1 (proj1 H)) | exact (proj2 (proj2 (proj2 (proj2 H))))].
Defined.

(** C3: under both conventions [ContainerDirFn] returns the runtime kind
    ["unknown"], the empty directory name and an error for every container
    ID without ["://"], and for every container ID whose text before the
    first ["://"] is neither ["docker"] nor ["containerd"]. *)
Theorem C3_ContainerDirFn_errors (id : string) :
  (strings.Contains id "://" = false ->
   both_ContainerDirFn id
     (RuntimeTypeUnknown, "", Some ("parse container id " ++ id ++ " failed")))
  /\ (forall m : nat,
       strings.Index id "://" = Some m ->
       substring 0 m id <> RuntimeTypeDocker ->
       substring 0 m id <> RuntimeTypeContainerd ->
       both_ContainerDirFn id
         (RuntimeTypeUnknown, "", Some ("unknown container protocol " ++ id))).
Proof.
  unfold both_ContainerDirFn.
  cbn [ContainerDirFn cgroupPathFormatterInSystemd cgroupPathFormatterInCgroupfs].
  split.
  - intros H. apply Contains_false in H.
    pose proof (Split_absent _ _ H) as Hs.
    now rewrite !(containerDir_one _ _ _ _ Hs).
  - intros m Hm Hd Hc.
    destruct (Split_present id m Hm) as [n Hs].
    pose proof (genSplit_nonempty n (strings.drop (m + 3) id) "://") as Hn.
    destruct (strings.genSplit n (strings.drop (m + 3) id) "://") as [|h1 l];
      [simpl in Hn; lia|].
    rewrite !(containerDir_many _ _ _ _ _ _ Hs).
    apply String.eqb_neq in Hd, Hc. now rewrite Hd, Hc.
Qed.

Lemma C3_ContainerDirFn_errors_witness :
  (strings.Contains "deadbeef" "://" = false
   /\ both_ContainerDirFn "deadbeef"
        ("unknown", "", Some "parse container id deadbeef failed"))
  /\ (strings.Index "crio://deadbeef" "://" = Some 4%nat
      /\ substring 0 4 "crio://deadbeef" <> RuntimeTypeDocker
      /\ substring 0 4 "crio://deadbeef" <> RuntimeTypeContainerd
      /\ both_ContainerDirFn "crio://deadbeef"
           ("unknown", "", Some "unknown container protocol crio://deadbeef")).
Proof.
  assert (H1 : strings.Contains "deadbeef" "://" = false) by reflexivity.
  assert (H2 : strings.Index "crio://deadbeef" "://" = Some 4%nat) by reflexivity.
  assert (H3 : substring 0 4 "crio://deadbeef" <> RuntimeTypeDocker)
    by (simpl; discriminate).
  assert (H4 : substring 0 4 "crio://deadbeef" <> RuntimeTypeContainerd)
    by (simpl; discriminate).
  split.
  - split; [exact H1|].
    exact (proj1 (C3_ContainerDirFn_errors "deadbeef") H1).
  - split; [exact H2|]. split; [exact H3|]. split; [exact H4|].
    exact (proj2 (C3_ContainerDirFn_errors "crio://deadbeef") 4%nat H2 H3 H4).
Defined.

(** C9: a container ID with a second ["://"] after a ["docker"] or
    ["containerd"] first segment is accepted by both formatters; the hash is
    the text between the first and the second ["://"], and what follows the
    second one has no effect on the result.  For example
    ["docker://a://b"] gives the hash ["a"]. *)
Theorem C9_ContainerDirFn_second_separator (a rest : string) :
  strings.Contains a "://" = false ->
  (ContainerDirFn cgroupPathFormatterInSystemd ("docker://" ++ a ++ "://" ++ rest)
   = ("docker", "docker-" ++ a ++ ".scope", None)
   /\ ContainerDirFn cgroupPathFormatterInSystemd
        ("containerd://" ++ a ++ "://" ++ rest)
      = ("containerd", "cri-containerd-" ++ a ++ ".scope", None)
   /\ ContainerDirFn cgroupPathFormatterInCgroupfs ("docker://" ++ a ++ "://" ++ rest)
      = ("docker", a, None)
   /\ ContainerDirFn cgroupPathFormatterInCgroupfs
        ("containerd://" ++ a ++ "://" ++ rest)
      = ("containerd", a, None))
  /\ ContainerDirFn cgroupPathFormatterInSystemd "docker://a://b"
     = ("docker", "docker-a.scope", None)
  /\ ContainerDirFn cgroupPathFormatterInCgroupfs "docker://a://b"
     = ("docker", "a", None).
Proof.
  intros Ha. apply Contains_false in Ha.
  split; [|split; reflexivity].
  assert (Hd : strings.Split ("docker://" ++ a ++ "://" ++ rest) "://"
               = "docker" :: a :: strings.Split rest "://").
  { change ("docker://" ++ a ++ "://" ++ rest)
      with ("docker" ++ "://" ++ a ++ "://" ++ rest).
    rewrite (Split_app_sep "docker" _ Index_docker).
    now rewrite (Split_app_sep a rest Ha). }
  assert (Hc : strings.Split ("containerd://" ++ a ++ "://" ++ rest) "://"
               = "containerd" :: a :: strings.Split rest "://").
  { change ("containerd://" ++ a ++ "://" ++ rest)
      with ("containerd" ++ "://" ++ a ++ "://" ++ rest).
    rewrite (Split_app_sep "containerd" _ Index_containerd).
    now rewrite (Split_app_sep a rest Ha). }
  cbn [ContainerDirFn cgroupPathFormatterInSystemd cgroupPathFormatterInCgroupfs].
  rewrite !(containerDir_many _ _ _ _ _ _ Hd), !(containerDir_many _ _ _ _ _ _ Hc).
  repeat split.
Qed.

Lemma C9_ContainerDirFn_second_separator_witness :
  strings.Contains "a" "://" = false
  /\ ContainerDirFn cgroupPathFormatterInSystemd ("docker://" ++ "a" ++ "://" ++ "b")
     = ("docker", "docker-" ++ "a" ++ ".scope", None).
Proof.
  assert (H : strings.Contains "a" "://" = false) by reflexivity.
  split; [exact H|].
  exact (proj1 (proj1 (C9_ContainerDirFn_second_separator "a" "b" H))).
Defined.

(** C4: [QOSDirFn] returns ["/"] for Guaranteed under both conventions, the
    slice names ["kubepods-burstable.slice/"] and
    ["kubepods-besteffort.slice/"] under systemd, and ["burstable/"] and
    ["besteffort/"] under cgroupfs. *)
Theorem C4_QOSDirFn_literals :
  QOSDirFn cgroupPathFormatterInSystemd PodQOSGuaranteed = "/"
  /\ QOSDirFn cgroupPathFormatterInCgroupfs PodQOSGuaranteed = "/"
  /\ QOSDirFn cgroupPathFormatterInSystemd PodQOSBurstable = "kubepods-burstable.slice/"
  /\ QOSDirFn cgroupPathFormatterInCgroupfs PodQOSBurstable = "burstable/"
  /\ QOSDirFn cgroupPathFormatterInSystemd PodQOSBestEffort = "kubepods-besteffort.slice/"
  /\ QOSDirFn cgroupPathFormatterInCgroupfs PodQOSBestEffort = "besteffort/".
Proof. repeat split. Qed.

(** C5: under systemd, for every pod UID, [PodDirFn] replaces every hyphen
    of the UID with an underscore and returns
    ["kubepods-besteffort-pod<id>.slice/"] for BestEffort,
    ["kubepods-burstable-pod<id>.slice/"] for Burstable and
    ["kubepods-pod<id>.slice/"] for Guaranteed; for Burstable and
    ["abc-123-def"] that is ["kubepods-burstable-podabc_123_def.slice/"]. *)
Theorem C5_systemd_PodDirFn_templates (uid : string) :
  PodDirFn cgroupPathFormatterInSystemd PodQOSBestEffort uid
  = "kubepods-besteffort-pod" ++ hyphens_to_underscores uid ++ ".slice/"
  /\ PodDirFn cgroupPathFormatterInSystemd PodQOSBurstable uid
     = "kubepods-burstable-pod" ++ hyphens_to_underscores uid ++ ".slice/"
  /\ PodDirFn cgroupPathFormatterInSystemd PodQOSGuaranteed uid
     = "kubepods-pod" ++ hyphens_to_underscores uid ++ ".slice/"
  /\ PodDirFn cgroupPathFormatterInSystemd PodQOSBurstable "abc-123-def"
     = "kubepods-burstable-podabc_123_def.slice/".
Proof.
  cbn [PodDirFn cgroupPathFormatterInSystemd]. rewrite !ReplaceAll_hyphens.
  repeat split.
Qed.

(** C10: for a QoS class outside {Guaranteed, Burstable, BestEffort},
    [QOSDirFn] returns ["/"] under both conventions and the systemd
    [PodDirFn] returns ["/"]; the cgroupfs [PodDirFn] does not look at the
    QoS class and returns ["pod<UID>/"]. *)
Theorem C10_unknown_qos (qos : PodQOSClass) (uid : string) :
  qos <> PodQOSGuaranteed -> qos <> PodQOSBurstable -> qos <> PodQOSBestEffort ->
  QOSDirFn cgroupPathFormatterInSystemd qos = "/"
  /\ QOSDirFn cgroupPathFormatterInCgroupfs qos = "/"
  /\ PodDirFn cgroupPathFormatterInSystemd qos uid = "/"
  /\ PodDirFn cgroupPathFormatterInCgroupfs qos uid = "pod" ++ uid ++ "/"
  /\ (forall other : PodQOSClass,
       PodDirFn cgroupPathFormatterInCgroupfs other uid
       = PodDirFn cgroupPathFormatterInCgroupfs qos uid).
Proof.
  intros Hg Hb He. apply String.eqb_neq in Hg, Hb, He.
  cbn [QOSDirFn PodDirFn cgroupPathFormatterInSystemd cgroupPathFormatterInCgroupfs].
  rewrite Hg, Hb, He. repeat split.
Qed.

Lemma C10_unknown_qos_witness :
  "Unknown" <> PodQOSGuaranteed /\ "Unknown" <> PodQOSBurstable
  /\ "Unknown" <> PodQOSBestEffort
  /\ PodDirFn cgroupPathFormatterInSystemd "Unknown" "abc-123-def" = "/"
  /\ PodDirFn cgroupPathFormatterInCgroupfs "Unknown" "abc-123-def"
     = "pod" ++ "abc-123-def" ++ "/".
Proof.
  assert (Hg : "Unknown" <> PodQOSGuaranteed) by discriminate.
  assert (Hb : "Unknown" <> PodQOSBurstable) by discriminate.
  assert (He : "Unknown" <> PodQOSBestEffort) by discriminate.
  pose proof (C10_unknown_qos "Unknown" "abc-123-def" Hg Hb He) as H.
  split; [exact Hg|]. split; [exact Hb|]. split; [exact He|].
  split; [exact (proj1 (proj2 (proj2 H))) | exact (proj1 (proj2 (proj2 (proj2 H))))].
Defined.

(** ** Selecting and binding a formatter *)

Lemma formatters_differ : cgroupPathFormatterInCgroupfs <> cgroupPathFormatterInSystemd.
Proof. intros H. apply (f_equal ParentDir) in H. discriminate H. Qed.

(** C6: [GetCgroupPathFormatter] returns a formatter for every driver value
    (the lookup has no failing outcome and leaves the active formatter as it
    was): the cgroupfs formatter exactly when the driver is ["cgroupfs"], the
    systemd formatter when it is ["systemd"], and the systemd formatter, with
    a warning, for every other string. *)
Theorem C6_GetCgroupPathFormatter_total (driver : CgroupDriverType) (p : process) :
  let r := GetCgroupPathFormatter driver p in
  (fst r = cgroupPathFormatterInCgroupfs \/ fst r = cgroupPathFormatterInSystemd)
  /\ (fst r = cgroupPathFormatterInCgroupfs <-> driver = Cgroupfs)
  /\ (driver = Systemd -> fst r = cgroupPathFormatterInSystemd)
  /\ (driver <> Cgroupfs -> fst r = cgroupPathFormatterInSystemd)
  /\ CgroupPathFormatter (snd r) = CgroupPathFormatter p
  /\ (Validate driver = true -> events (snd r) = events p)
  /\ (Validate driver = false ->
      events (snd r)
      = (events p
         ++ [Klog Warning ("cgroup driver formatter not supported: '" ++ driver ++ "'")])%list).
Proof.
  unfold GetCgroupPathFormatter, Validate.
  destruct (String.eqb_spec driver Systemd) as [->|Hs].
  - cbn. split; [now right|]. split; [|repeat split; auto; discriminate].
    split; [|discriminate].
    intros H. symmetry in H. now apply formatters_differ in H.
  - destruct (String.eqb_spec driver Cgroupfs) as [->|Hc].
    + cbn. split; [now left|]. split; [now split|].
      repeat split; auto; try discriminate; congruence.
    + cbn. split; [now right|]. split; [|repeat split; auto; discriminate].
      split; [|congruence].
      intros H. symmetry in H. now apply formatters_differ in H.
Qed.

Lemma C6_GetCgroupPathFormatter_total_witness :
  "none" <> Cgroupfs
  /\ fst (GetCgroupPathFormatter "none" (seeded cgroupPathFormatterInCgroupfs))
     = cgroupPathFormatterInSystemd
  /\ fst (GetCgroupPathFormatter Cgroupfs (seeded cgroupPathFormatterInSystemd))
     = cgroupPathFormatterInCgroupfs.
Proof.
  assert (H : "none" <> Cgroupfs) by discriminate.
  split; [exact H|]. split.
  - exact (proj1 (proj2 (proj2 (proj2
             (C6_GetCgroupPathFormatter_total "none"
                (seeded cgroupPathFormatterInCgroupfs))))) H).
  - exact (proj2 (proj1 (proj2
             (C6_GetCgroupPathFormatter_total Cgroupfs
                (seeded cgroupPathFormatterInSystemd)))) eq_refl).
Defined.

(** C7: [SetupCgroupPathFormatter] sets the active formatter to the systemd
    formatter when called with ["systemd"] and to the cgroupfs formatter when
    called with ["cgroupfs"]; for every other driver value the active
    formatter stays as it was and the only effect is one warning line. *)
Theorem C7_SetupCgroupPathFormatter_slot (p : process) :
  CgroupPathFormatter (snd (SetupCgroupPathFormatter Systemd p))
  = cgroupPathFormatterInSystemd
  /\ CgroupPathFormatter (snd (SetupCgroupPathFormatter Cgroupfs p))
     = cgroupPathFormatterInCgroupfs
  /\ (forall driver : CgroupDriverType,
       driver <> Systemd -> driver <> Cgroupfs ->
       CgroupPathFormatter (snd (SetupCgroupPathFormatter driver p))
       = CgroupPathFormatter p
       /\ events (snd (SetupCgroupPathFormatter driver p))
          = (events p
             ++ [Klog Warning
                   ("cgroup driver formatter not supported: '" ++ driver ++ "'")])%list).
Proof.
  split; [reflexivity|]. split; [reflexivity|].
  intros driver Hs Hc. unfold SetupCgroupPathFormatter.
  apply String.eqb_neq in Hs, Hc. rewrite Hs, Hc. split; reflexivity.
Qed.

Lemma C7_SetupCgroupPathFormatter_slot_witness :
  "none" <> Systemd /\ "none" <> Cgroupfs
  /\ CgroupPathFormatter
       (snd (SetupCgroupPathFormatter "none" (seeded cgroupPathFormatterInCgroupfs)))
     = cgroupPathFormatterInCgroupfs.
Proof.
  assert (Hs : "none" <> Systemd) by discriminate.
  assert (Hc : "none" <> Cgroupfs) by discriminate.
  split; [exact Hs|]. split; [exact Hc|].
  exact (proj1 (proj2 (proj2
           (C7_SetupCgroupPathFormatter_slot (seeded cgroupPathFormatterInCgroupfs)))
           "none" Hs Hc)).
Defined.

(** ** The parsers never panic *)

Lemma HasPrefix_inv (s p : string) :
  strings.HasPrefix s p = true -> exists t, s = p ++ t.
Proof.
  unfold strings.HasPrefix, len. intros H.
  apply andb_true_iff in H. destruct H as [Hl Hp].
  apply Z.leb_le in Hl. apply String.eqb_eq in Hp.
  exists (substring (String.length p) (String.length s - String.length p) s).
  assert (Hn : (String.length p <= String.length s)%nat) by lia.
  pose proof (substring_split _ s Hn) as Hs. now rewrite Hp in Hs.
Qed.

Lemma slice_in_bounds (s : string) (lo hi : Z) :
  0 <= lo -> lo <= hi -> hi <= len s -> slice s lo hi <> None.
Proof.
  intros H0 H1 H2. unfold slice.
  replace ((0 <=? lo) && (lo <=? hi) && (hi <=? len s)) with true; [discriminate|].
  symmetry. rewrite !andb_true_iff, !Z.leb_le. lia.
Qed.

Lemma match_patterns_returns (patterns : list pattern) (b notfound : string) :
  Forall apart patterns -> match_patterns patterns b notfound <> None.
Proof.
  induction 1 as [|P rest HP _ IH]; cbn [match_patterns]; [discriminate|].
  destruct (strings.HasPrefix b (prefix P)) eqn:Hp;
    destruct (strings.HasSuffix b (suffix P)) eqn:Hs; cbn [andb]; try exact IH.
  specialize (HP b Hp Hs).
  destruct (slice b (len (prefix P)) (len b - len (suffix P))) eqn:E;
    [discriminate|].
  exfalso. revert E. apply slice_in_bounds; unfold len in *; lia.
Qed.

(** With fewer than six bytes after the prefix, the suffix would have to
    start inside the prefix, where there is no ["."]. *)
Ltac prove_apart :=
  intros b Hp Hs; cbn [prefix suffix] in *;
  apply HasPrefix_inv in Hp; destruct Hp as [t ->];
  do 6 (destruct t as [|? t]; [vm_compute in Hs; discriminate Hs|]);
  rewrite len_app; unfold len; cbn [String.length]; lia.

Lemma apart_besteffort : apart {| prefix := "kubepods-besteffort-pod"; suffix := ".slice" |}.
Proof. prove_apart. Qed.

Lemma apart_burstable : apart {| prefix := "kubepods-burstable-pod"; suffix := ".slice" |}.
Proof. prove_apart. Qed.

Lemma apart_guaranteed : apart {| prefix := "kubepods-pod"; suffix := ".slice" |}.
Proof. prove_apart. Qed.

Lemma apart_docker : apart {| prefix := "docker-"; suffix := ".scope" |}.
Proof. prove_apart. Qed.

Lemma apart_containerd : apart {| prefix := "cri-containerd-"; suffix := ".scope" |}.
Proof. prove_apart. Qed.

(** No basename makes a slice expression of the four parsers go out of
    range. *)
Lemma parsers_never_panic (basename : string) :
  PodIDParser cgroupPathFormatterInSystemd basename <> None
  /\ ContainerIDParser cgroupPathFormatterInSystemd basename <> None
  /\ PodIDParser cgroupPathFormatterInCgroupfs basename <> None
  /\ ContainerIDParser cgroupPathFormatterInCgroupfs basename <> None.
Proof.
  split; [|split; [|split]].
  - apply match_patterns_returns.
    repeat constructor;
      [apply apart_besteffort | apply apart_burstable | apply apart_guaranteed].
  - apply match_patterns_returns.
    repeat constructor; [apply apart_docker | apply apart_containerd].
  - cbn [PodIDParser cgroupPathFormatterInCgroupfs].
    destruct (strings.HasPrefix basename "pod") eqn:Hp; [|discriminate].
    apply HasPrefix_inv in Hp. destruct Hp as [t ->].
    now rewrite slice_after.
  - discriminate.
Qed.

(** * Further properties of the parsers *)

Lemma app_inv_head (a b c : string) : a ++ b = a ++ c -> b = c.
Proof.
  induction a as [|x a IH]; simpl; intros H; [exact H|].
  injection H as H. auto.
Qed.

Lemma app_inv_tail (a b c : string) : a ++ c = b ++ c -> a = b.
Proof.
  revert b; induction a as [|x a IH]; intros [|y b] H; simpl in H.
  - reflexivity.
  - apply (f_equal String.length) in H. simpl in H. rewrite length_app in H. lia.
  - apply (f_equal String.length) in H. simpl in H. rewrite length_app in H. lia.
  - injection H as -> H. f_equal. auto.
Qed.

(** Two ways of cutting one string: the shorter head is a head of the
    longer one. *)
Lemma app_eq_app (p t u q : string) :
  p ++ t = u ++ q -> (String.length p <= String.length u)%nat ->
  exists x, u = p ++ x /\ t = x ++ q.
Proof.
  revert u; induction p as [|c p IH]; intros u H Hl.
  - exists u. split; [reflexivity | exact H].
  - destruct u as [|d u]; [simpl in Hl; lia|].
    simpl in H, Hl. injection H as -> H.
    destruct (IH u H) as [x [-> ->]]; [lia|].
    exists x. split; reflexivity.
Qed.

Lemma slice_bounds (s x : string) (lo hi : Z) :
  slice s lo hi = Some x -> 0 <= lo /\ lo <= hi /\ hi <= len s.
Proof.
  unfold slice.
  destruct ((0 <=? lo) && (lo <=? hi) && (hi <=? len s)) eqn:E; [|discriminate].
  intros _. rewrite !andb_true_iff, !Z.leb_le in E. lia.
Qed.

(** When a prefix and a suffix both match and the slice between them can be
    taken, the name is the prefix, the slice and the suffix. *)
Lemma slice_between_inv (b p q x : string) :
  strings.HasPrefix b p = true -> strings.HasSuffix b q = true ->
  slice b (len p) (len b - len q) = Some x ->
  b = p ++ x ++ q.
Proof.
  intros Hp Hq Hs.
  apply HasPrefix_inv in Hp. destruct Hp as [t Et].
  apply HasSuffix_inv in Hq. destruct Hq as [u Eu].
  pose proof (slice_bounds _ _ _ _ Hs) as [_ [Hb _]].
  assert (Hl : (String.length p <= String.length u)%nat).
  { rewrite Eu, len_app in Hb. unfold len in Hb. lia. }
  assert (E : p ++ t = u ++ q) by congruence.
  destruct (app_eq_app p t u q E Hl) as [y [-> ->]].
  rewrite Eu, app_assoc in Hs. rewrite slice_between in Hs.
  injection Hs as ->. rewrite Eu. apply app_assoc.
Qed.

Lemma match_patterns_sound (patterns : list pattern) (b notfound id : string) :
  match_patterns patterns b notfound = Some (id, None) ->
  exists P, In P patterns /\ b = prefix P ++ id ++ suffix P.
Proof.
  induction patterns as [|P rest IH]; cbn [match_patterns]; [discriminate|].
  destruct (strings.HasPrefix b (prefix P)) eqn:Hp;
    destruct (strings.HasSuffix b (suffix P)) eqn:Hq; cbn [andb];
    try (intros H; destruct (IH H) as [Q [HQ E]]; exists Q; split;
         [now right | exact E]).
  destruct (slice b (len (prefix P)) (len b - len (suffix P))) as [x|] eqn:Hs;
    [|discriminate].
  intros H. injection H as <-. exists P. split; [now left|].
  now apply slice_between_inv.
Qed.

(** The outcome of the pattern loop, whatever the name: an id without
    error, or the empty id with the error. *)
Lemma match_patterns_outcome (patterns : list pattern) (b notfound : string) :
  Forall apart patterns ->
  (exists id, match_patterns patterns b notfound = Some (id, None))
  \/ match_patterns patterns b notfound = Some ("", Some notfound).
Proof.
  induction 1 as [|P rest HP _ IH]; cbn [match_patterns]; [now right|].
  destruct (strings.HasPrefix b (prefix P)) eqn:Hp;
    destruct (strings.HasSuffix b (suffix P)) eqn:Hq; cbn [andb]; try exact IH.
  destruct (slice b (len (prefix P)) (len b - len (suffix P))) as [x|] eqn:Hs.
  - left. eauto.
  - exfalso. revert Hs. specialize (HP b Hp Hq).
    apply slice_in_bounds; unfold len in *; lia.
Qed.

Lemma Forall_apart_pod :
  Forall apart
    [ {| prefix := "kubepods-besteffort-pod"; suffix := ".slice" |};
      {| prefix := "kubepods-burstable-pod"; suffix := ".slice" |};
      {| prefix := "kubepods-pod"; suffix := ".slice" |} ].
Proof.
  repeat constructor;
    [apply apart_besteffort | apply apart_burstable | apply apart_guaranteed].
Qed.

Lemma Forall_apart_container :
  Forall apart
    [ {| prefix := "docker-"; suffix := ".scope" |};
      {| prefix := "cri-containerd-"; suffix := ".scope" |} ].
Proof. repeat constructor; [apply apart_docker | apply apart_containerd]. Qed.

Lemma systemd_PodIDParser_sound (basename id : string) :
  PodIDParser cgroupPathFormatterInSystemd basename = Some (id, None) ->
  exists p,
    In p ["kubepods-pod"; "kubepods-burstable-pod"; "kubepods-besteffort-pod"]
    /\ basename = p ++ id ++ ".slice".
Proof.
  intros H. apply match_patterns_sound in H. destruct H as [P [HP E]].
  destruct HP as [<- | [<- | [<- | []]]]; cbn [prefix suffix] in E;
    eexists; (split; [|exact E]); simpl; auto.
Qed.

Lemma cgroupfs_PodIDParser_sound (basename id : string) :
  PodIDParser cgroupPathFormatterInCgroupfs basename = Some (id, None) ->
  basename = "pod" ++ id.
Proof.
  cbn [PodIDParser cgroupPathFormatterInCgroupfs].
  destruct (strings.HasPrefix basename "pod") eqn:Hp; [|discriminate].
  apply HasPrefix_inv in Hp. destruct Hp as [t ->].
  rewrite slice_after. intros H. now injection H as ->.
Qed.

(** The systemd [PodIDParser] accepts exactly the slice names of the three
    templates: it returns [id] without error if and only if the basename is
    one of the three prefixes, then [id], then [".slice"]; on every other
    basename it returns the empty id and the error
    ["fail to parse pod id: <basename>"]. *)
Theorem systemd_PodIDParser_accepts (basename : string) :
  (forall id : string,
      PodIDParser cgroupPathFormatterInSystemd basename = Some (id, None)
      <-> exists p,
            In p ["kubepods-pod"; "kubepods-burstable-pod"; "kubepods-besteffort-pod"]
            /\ basename = p ++ id ++ ".slice")
  /\ ((exists id, PodIDParser cgroupPathFormatterInSystemd basename = Some (id, None))
      \/ PodIDParser cgroupPathFormatterInSystemd basename
         = Some ("", Some ("fail to parse pod id: " ++ basename))).
Proof.
  split.
  - intros id. split.
    + apply systemd_PodIDParser_sound.
    + intros [p [Hp ->]]. now apply systemd_PodIDParser_slice.
  - apply match_patterns_outcome, Forall_apart_pod.
Qed.

(** The systemd [ContainerIDParser] accepts exactly the two scope names: it
    returns [id] without error if and only if the basename is
    ["docker-<id>.scope"] or ["cri-containerd-<id>.scope"]; on every other
    basename it returns the empty id and an error. *)
Theorem systemd_ContainerIDParser_accepts (basename : string) :
  (forall id : string,
      ContainerIDParser cgroupPathFormatterInSystemd basename = Some (id, None)
      <-> (basename = "docker-" ++ id ++ ".scope"
           \/ basename = "cri-containerd-" ++ id ++ ".scope"))
  /\ ((exists id,
         ContainerIDParser cgroupPathFormatterInSystemd basename = Some (id, None))
      \/ ContainerIDParser cgroupPathFormatterInSystemd basename
         = Some ("", Some ("fail to parse pod id: " ++ basename))).
Proof.
  split.
  - intros id. split.
    + intros H. apply match_patterns_sound in H. destruct H as [P [HP E]].
      destruct HP as [<- | [<- | []]]; cbn [prefix suffix] in E; auto.
    + intros [-> | ->];
        [apply systemd_ContainerIDParser_docker
        | apply systemd_ContainerIDParser_containerd].
  - apply match_patterns_outcome, Forall_apart_container.
Qed.

(** The cgroupfs [PodIDParser] returns [id] without error if and only if the
    basename is ["pod"] followed by [id] (nothing is stripped at the end);
    on every other basename it returns the empty id and an error. *)
Theorem cgroupfs_PodIDParser_accepts (basename : string) :
  (forall id : string,
      PodIDParser cgroupPathFormatterInCgroupfs basename = Some (id, None)
      <-> basename = "pod" ++ id)
  /\ ((exists id, basename = "pod" ++ id)
      \/ PodIDParser cgroupPathFormatterInCgroupfs basename
         = Some ("", Some ("fail to parse pod id: " ++ basename))).
Proof.
  destruct (strings.HasPrefix basename "pod") eqn:Hp.
  - apply HasPrefix_inv in Hp. destruct Hp as [t ->]. split.
    + intros id. rewrite cgroupfs_PodIDParser_pod. split.
      * intros H. injection H as ->. reflexivity.
      * intros H. apply app_inv_head in H. now subst.
    + left. eauto.
  - split.
    + intros id. cbn [PodIDParser cgroupPathFormatterInCgroupfs]. rewrite Hp.
      split; [discriminate|].
      intros ->. now rewrite HasPrefix_app in Hp.
    + right. cbn [PodIDParser cgroupPathFormatterInCgroupfs]. now rewrite Hp.
Qed.

(** * Further properties of the formatters *)

Lemma Index_hyphen_free (s : string) :
  strings.Index (hyphens_to_underscores s) "-" = None.
Proof.
  induction s as [|c s IH]; [reflexivity|].
  cbn [hyphens_to_underscores]. rewrite Index_hyphen_cons, IH.
  destruct (Ascii.eqb c "-") eqn:Hc; [reflexivity|]. now rewrite Hc.
Qed.

Lemma hyphens_length (s : string) :
  String.length (hyphens_to_underscores s) = String.length s.
Proof. induction s as [|c s IH]; simpl; [reflexivity | now rewrite IH]. Qed.

Lemma hyphens_absent (s : string) :
  strings.Index s "-" = None -> hyphens_to_underscores s = s.
Proof.
  induction s as [|c s IH]; [reflexivity|].
  rewrite Index_hyphen_cons. cbn [hyphens_to_underscores].
  destruct (Ascii.eqb c "-"); [discriminate|].
  destruct (strings.Index s "-"); [discriminate|].
  intros _. now rewrite IH.
Qed.

(** What [PodDirFn] of the systemd formatter puts in the directory name in
    place of the UID has no hyphen and the length of the UID; a UID without
    hyphen is kept as it is, and replacing twice changes nothing more, so a
    UID and its underscore form get the same directory. *)
Theorem systemd_PodDirFn_id_normalised (qos : PodQOSClass) (uid : string) :
  let id := strings.ReplaceAll uid "-" "_" in
  strings.Contains id "-" = false
  /\ len id = len uid
  /\ (strings.Contains uid "-" = false -> id = uid)
  /\ PodDirFn cgroupPathFormatterInSystemd qos id
     = PodDirFn cgroupPathFormatterInSystemd qos uid.
Proof.
  cbv zeta. rewrite ReplaceAll_hyphens.
  pose proof (Index_hyphen_free uid) as Hf.
  split; [unfold strings.Contains; now rewrite Hf|].
  split; [unfold len; now rewrite hyphens_length|].
  split; [intros H; apply Contains_false in H; now apply hyphens_absent|].
  cbn [PodDirFn cgroupPathFormatterInSystemd].
  rewrite !ReplaceAll_hyphens. now rewrite (hyphens_absent _ Hf).
Qed.

Lemma systemd_PodDirFn_id_normalised_witness :
  strings.Contains "abc_123" "-" = false
  /\ strings.ReplaceAll "abc_123" "-" "_" = "abc_123".
Proof.
  assert (H : strings.Contains "abc_123" "-" = false) by reflexivity.
  split; [exact H|].
  exact (proj1 (proj2 (proj2
           (systemd_PodDirFn_id_normalised PodQOSBurstable "abc_123"))) H).
Defined.

(** Pod directory names do not collide.  Under systemd two known QoS
    classes with two UIDs give the same directory only when the class is the
    same and the UIDs agree once their hyphens are replaced; under cgroupfs
    two UIDs give the same directory only when they are equal. *)
Theorem PodDirFn_injective (q1 q2 : PodQOSClass) (u1 u2 : string) :
  (known_qos q1 -> known_qos q2 ->
   PodDirFn cgroupPathFormatterInSystemd q1 u1
   = PodDirFn cgroupPathFormatterInSystemd q2 u2 ->
   q1 = q2 /\ hyphens_to_underscores u1 = hyphens_to_underscores u2)
  /\ (PodDirFn cgroupPathFormatterInCgroupfs q1 u1
      = PodDirFn cgroupPathFormatterInCgroupfs q2 u2 ->
      u1 = u2).
Proof.
  split.
  - intros [-> | [-> | ->]] [-> | [-> | ->]];
      cbn [PodDirFn cgroupPathFormatterInSystemd]; rewrite !ReplaceAll_hyphens;
      intros H; try (cbn [String.append] in H; discriminate H);
      (split; [reflexivity|]).
    + apply (app_inv_head "kubepods-pod") in H. now apply app_inv_tail in H.
    + apply (app_inv_head "kubepods-burstable-pod") in H.
      now apply app_inv_tail in H.
    + apply (app_inv_head "kubepods-besteffort-pod") in H.
      now apply app_inv_tail in H.
  - cbn [PodDirFn cgroupPathFormatterInCgroupfs]. intros H.
    apply (app_inv_head "pod") in H. now apply app_inv_tail in H.
Qed.

Lemma PodDirFn_injective_witness :
  known_qos PodQOSGuaranteed /\ known_qos PodQOSGuaranteed
  /\ PodDirFn cgroupPathFormatterInSystemd PodQOSGuaranteed "a-b"
     = PodDirFn cgroupPathFormatterInSystemd PodQOSGuaranteed "a_b"
  /\ hyphens_to_underscores "a-b" = hyphens_to_underscores "a_b".
Proof.
  assert (Hk : known_qos PodQOSGuaranteed) by (left; reflexivity).
  assert (He : PodDirFn cgroupPathFormatterInSystemd PodQOSGuaranteed "a-b"
               = PodDirFn cgroupPathFormatterInSystemd PodQOSGuaranteed "a_b")
    by reflexivity.
  split; [exact Hk|]. split; [exact Hk|]. split; [exact He|].
  exact (proj2 (proj1 (PodDirFn_injective PodQOSGuaranteed PodQOSGuaranteed
                         "a-b" "a_b") Hk Hk He)).
Defined.

(** Parsing, then formatting.  When the systemd [PodIDParser] returns an id
    without hyphen for a basename, [PodDirFn] of one of the three QoS
    classes applied to that id gives the basename followed by ["/"]; when
    the cgroupfs [PodIDParser] returns an id, [PodDirFn] of any QoS class
    does. *)
Theorem PodIDParser_then_PodDirFn (basename id : string) :
  (PodIDParser cgroupPathFormatterInSystemd basename = Some (id, None) ->
   strings.Contains id "-" = false ->
   exists qos, known_qos qos
               /\ PodDirFn cgroupPathFormatterInSystemd qos id = basename ++ "/")
  /\ (PodIDParser cgroupPathFormatterInCgroupfs basename = Some (id, None) ->
      forall qos, PodDirFn cgroupPathFormatterInCgroupfs qos id = basename ++ "/").
Proof.
  split.
  - intros H Hf. apply Contains_false in Hf.
    apply systemd_PodIDParser_sound in H.
    destruct H as [p [Hp ->]].
    destruct Hp as [<- | [<- | [<- | []]]];
      [exists PodQOSGuaranteed | exists PodQOSBurstable | exists PodQOSBestEffort];
      (split; [unfold known_qos; auto|]);
      cbn [PodDirFn cgroupPathFormatterInSystemd];
      rewrite ReplaceAll_hyphens, (hyphens_absent _ Hf), !app_assoc;
      reflexivity.
  - intros H qos. apply cgroupfs_PodIDParser_sound in H.
    subst basename. symmetry. apply (app_assoc "pod" id "/").
Qed.

Lemma PodIDParser_then_PodDirFn_witness :
  PodIDParser cgroupPathFormatterInSystemd "kubepods-burstable-podabc_123.slice"
  = Some ("abc_123", None)
  /\ strings.Contains "abc_123" "-" = false
  /\ exists qos, known_qos qos
       /\ PodDirFn cgroupPathFormatterInSystemd qos "abc_123"
          = "kubepods-burstable-podabc_123.slice" ++ "/".
Proof.
  assert (H1 : PodIDParser cgroupPathFormatterInSystemd
                 "kubepods-burstable-podabc_123.slice" = Some ("abc_123", None))
    by reflexivity.
  assert (H2 : strings.Contains "abc_123" "-" = false) by reflexivity.
  split; [exact H1|]. split; [exact H2|].
  exact (proj1 (PodIDParser_then_PodDirFn "kubepods-burstable-podabc_123.slice"
                  "abc_123") H1 H2).
Defined.

(** Where [Index] finds an instance, there is one. *)
Lemma Index_sound (s sep : string) (m : nat) :
  strings.Index s sep = Some m ->
  s = substring 0 m s ++ sep ++ strings.drop (m + String.length sep) s.
Proof.
  revert m; induction s as [|c s IH]; intros m.
  - cbn [strings.Index].
    destruct (strings.HasPrefix "" sep) eqn:Hp; [|discriminate].
    intros H. injection H as <-.
    apply HasPrefix_inv in Hp. destruct Hp as [t E].
    destruct sep; [reflexivity | discriminate E].
  - rewrite Index_cons.
    destruct (strings.HasPrefix (String c s) sep) eqn:Hp.
    + intros H. injection H as <-.
      apply HasPrefix_inv in Hp. destruct Hp as [t E]. rewrite E at 1.
      rewrite substring_0_0. cbn [String.append Nat.add]. f_equal.
      rewrite E. rewrite <- (Nat.add_0_r (String.length sep)).
      now rewrite drop_app.
    + destruct (strings.Index s sep) as [k|] eqn:Hk; [|discriminate].
      cbn [option_map]. intros H. injection H as <-.
      cbn [substring Nat.add strings.drop String.append].
      f_equal. now apply IH.
Qed.

Lemma Split_nonempty (s sep : string) : strings.Split s sep <> [].
Proof.
  unfold strings.Split. intros H.
  pose proof (genSplit_nonempty (strings.Count s sep) s sep) as Hn.
  rewrite H in Hn. simpl in Hn. lia.
Qed.

(** The first element of the split is ["docker"] exactly for an ID that
    starts with ["docker://"], and likewise for ["containerd"]. *)
Lemma Split_head (id p : string) :
  strings.Index p "://" = None ->
  ((exists h1 l, strings.Split id "://" = p :: h1 :: l)
   <-> exists rest, id = p ++ "://" ++ rest).
Proof.
  intros Hp. split.
  - intros [h1 [l H]].
    destruct (strings.Index id "://") as [m|] eqn:Hm.
    + destruct (Split_present id m Hm) as [n Hs]. rewrite Hs in H.
      injection H as H _. pose proof (Index_sound _ _ _ Hm) as E.
      rewrite H in E. eauto.
    + rewrite (Split_absent _ _ Hm) in H. discriminate H.
  - intros [rest ->]. rewrite (Split_app_sep p rest Hp).
    destruct (strings.Split rest "://") as [|h1 l] eqn:E;
      [now apply Split_nonempty in E | eauto].
Qed.

Ltac refute_neq := let H := fresh in intros H; exfalso; apply H; reflexivity.

Ltac not_this_prefix Hp :=
  let H := fresh in
  intros H; apply Hp in H; destruct H as [? [? H]];
  first [ discriminate H
        | injection H as H _;
          unfold RuntimeTypeDocker, RuntimeTypeContainerd in *; congruence ].

Lemma containerDir_classifies (docker containerd : string -> string) (id : string) :
  classifies id (containerDir docker containerd id).
Proof.
  pose proof (Split_head id "docker" Index_docker) as Hd.
  pose proof (Split_head id "containerd" Index_containerd) as Hc.
  unfold classifies.
  destruct (strings.Split id "://") as [|h0 [|h1 l]] eqn:E.
  - now apply Split_nonempty in E.
  - rewrite (containerDir_one _ _ _ _ E). cbn [fst snd].
    split; [split; [discriminate | not_this_prefix Hd]|].
    split; [split; [discriminate | not_this_prefix Hc]|].
    split; [split; [discriminate | refute_neq] | reflexivity].
  - rewrite (containerDir_many _ _ _ _ _ _ E).
    destruct (String.eqb_spec h0 RuntimeTypeDocker) as [->|Nd]; cbn [fst snd].
    + split; [split; [intros _; apply Hd; eauto | reflexivity]|].
      split; [split; [discriminate | not_this_prefix Hc]|].
      split; [split; [discriminate | reflexivity] | refute_neq].
    + destruct (String.eqb_spec h0 RuntimeTypeContainerd) as [->|Nc]; cbn [fst snd].
      * split; [split; [discriminate | not_this_prefix Hd]|].
        split; [split; [intros _; apply Hc; eauto | reflexivity]|].
        split; [split; [discriminate | reflexivity] | refute_neq].
      * split; [split; [discriminate | not_this_prefix Hd]|].
        split; [split; [discriminate | not_this_prefix Hc]|].
        split; [split; [discriminate | refute_neq] | reflexivity].
Qed.

(** [ContainerDirFn] of both formatters accepts exactly the container IDs
    that start with ["docker://"] or ["containerd://"], reports the runtime
    kind of that prefix, and returns ["unknown"], the empty name and an error
    for every other ID. *)
Theorem ContainerDirFn_accepts (id : string) :
  classifies id (ContainerDirFn cgroupPathFormatterInSystemd id)
  /\ classifies id (ContainerDirFn cgroupPathFormatterInCgroupfs id).
Proof. split; apply containerDir_classifies. Qed.

(** Whenever the systemd [ContainerDirFn] accepts a container ID, the
    systemd [ContainerIDParser] reads from the scope name it returns the very
    hash that the cgroupfs [ContainerDirFn] uses as directory name; the two
    formatters report the same runtime kind, which is not ["unknown"]; and the
    cgroupfs parser returns that hash unchanged. *)
Theorem ContainerDirFn_then_ContainerIDParser (id kind dir : string) :
  ContainerDirFn cgroupPathFormatterInSystemd id = (kind, dir, None) ->
  exists hash,
    ContainerIDParser cgroupPathFormatterInSystemd dir = Some (hash, None)
    /\ ContainerDirFn cgroupPathFormatterInCgroupfs id = (kind, hash, None)
    /\ ContainerIDParser cgroupPathFormatterInCgroupfs hash = Some (hash, None)
    /\ (kind = RuntimeTypeDocker \/ kind = RuntimeTypeContainerd).
Proof.
  cbn [ContainerDirFn ContainerIDParser cgroupPathFormatterInSystemd
         cgroupPathFormatterInCgroupfs].
  destruct (strings.Split id "://") as [|h0 [|h1 l]] eqn:E.
  - now apply Split_nonempty in E.
  - rewrite (containerDir_one _ _ _ _ E). discriminate.
  - rewrite !(containerDir_many _ _ _ _ _ _ E).
    destruct (h0 =? RuntimeTypeDocker)%string.
    + intros H. injection H as <- <-. exists h1.
      split; [apply systemd_ContainerIDParser_docker | auto].
    + destruct (h0 =? RuntimeTypeContainerd)%string; [|discriminate].
      intros H. injection H as <- <-. exists h1.
      split; [apply systemd_ContainerIDParser_containerd | auto].
Qed.

Lemma ContainerDirFn_then_ContainerIDParser_witness :
  ContainerDirFn cgroupPathFormatterInSystemd "containerd://dead/beef://x"
  = ("containerd", "cri-containerd-dead/beef.scope", None)
  /\ exists hash,
       ContainerIDParser cgroupPathFormatterInSystemd "cri-containerd-dead/beef.scope"
       = Some (hash, None)
       /\ ContainerDirFn cgroupPathFormatterInCgroupfs "containerd://dead/beef://x"
          = ("containerd", hash, None)
       /\ ContainerIDParser cgroupPathFormatterInCgroupfs hash = Some (hash, None)
       /\ ("containerd" = RuntimeTypeDocker \/ "containerd" = RuntimeTypeContainerd).
Proof.
  assert (H : ContainerDirFn cgroupPathFormatterInSystemd "containerd://dead/beef://x"
              = ("containerd", "cri-containerd-dead/beef.scope", None))
    by reflexivity.
  split; [exact H|].
  exact (ContainerDirFn_then_ContainerIDParser _ _ _ H).
Defined.


(** * Detection *)

Lemma config_calls_app (a b : list event) :
  config_calls (a ++ b) = (config_calls a + config_calls b)%nat.
Proof.
  induction a as [|e a IH]; [reflexivity|].
  destruct e; simpl; rewrite IH; reflexivity.
Qed.

Lemma appends_nil (p : process) : appends p p [].
Proof. split; [reflexivity | now rewrite List.app_nil_r]. Qed.

Lemma appends_trans (p q r : process) (es fs : list event) :
  appends p q es -> appends q r fs -> appends p r (es ++ fs).
Proof.
  intros [H1 H2] [H3 H4]. split; [congruence|].
  now rewrite H4, H2, List.app_assoc.
Qed.

Lemma appends_emit (e : event) (p : process) : appends p (snd (emit e p)) [e].
Proof. split; reflexivity. Qed.


(** One round of the poll: one call to [config.GetConfig]; then the panic
    of the round if no client can be built, the driver of the round when it
    succeeds, and otherwise the captured variable untouched; never an
    error. *)
Lemma kubeletCondition_run (nodeName : string) (r : round)
    (d : CgroupDriverType) (p : process) :
  exists es,
    appends p (snd (kubeletCondition nodeName r d p)) es
    /\ config_calls es = 1%nat
    /\ fst (kubeletCondition nodeName r d p)
       = match round_panics r with
         | Some v => Panics v
         | None =>
             match round_driver nodeName r with
             | Some driver => Returns (true, None, driver)
             | None => Returns (false, None, d)
             end
         end.
Proof.
  unfold kubeletCondition, round_panics, round_driver, bind, ret, klog.Errorf,
    emit, appends.
  destruct (GetConfig r) as [e|]; cbn [fst snd CgroupPathFormatter events].
  { eexists. split; [split; [reflexivity|]|split; [|reflexivity]].
    - rewrite <- List.app_assoc. reflexivity.
    - reflexivity. }
  destruct (NewForConfigOrDie r) as [v|]; cbn [fst snd CgroupPathFormatter events].
  { exists [CallGetConfig]. split; [split; reflexivity|]. split; reflexivity. }
  destruct (NodesGet r nodeName) as [[port|] [e|]];
    cbn [isNil isSome negb orb fst snd CgroupPathFormatter events];
    try (eexists; split; [split; [reflexivity|]|split; [|reflexivity]];
         [rewrite <- !List.app_assoc; reflexivity | reflexivity]).
  destruct (GuessCgroupDriverFromKubeletPort r port) as [driver [e|]];
    cbn [isNil andb fst snd CgroupPathFormatter events].
  { eexists; split; [split; [reflexivity|]|split; [|reflexivity]];
      [rewrite <- !List.app_assoc; reflexivity | reflexivity]. }
  destruct (Validate driver);
    cbn [fst snd CgroupPathFormatter events];
    eexists; (split; [split; [reflexivity|]|split; [|reflexivity]]);
      [rewrite <- !List.app_assoc; reflexivity | reflexivity
      |rewrite <- !List.app_assoc; reflexivity | reflexivity].
Qed.

(** The poll: as many calls to [config.GetConfig] as rounds tried; the
    first round that succeeds or panics decides, and the timeout comes when
    there is none. *)
Lemma poll_run (nodeName : string) (rounds : list round)
    (d : CgroupDriverType) (p : process) :
  exists es,
    appends p (snd (wait.poll (kubeletCondition nodeName) rounds d p)) es
    /\ config_calls es = rounds_tried nodeName rounds
    /\ fst (wait.poll (kubeletCondition nodeName) rounds d p)
       = match poll_result nodeName rounds with
         | Panics v => Panics v
         | Returns (Some driver) => Returns (None, driver)
         | Returns None => Returns (Some wait.ErrWaitTimeout, d)
         end.
Proof.
  revert p; induction rounds as [|r rounds IH]; intros p.
  - exists []. split; [apply appends_nil|]. split; reflexivity.
  - cbn [wait.poll poll_result rounds_tried]. unfold bind.
    destruct (kubeletCondition_run nodeName r d p) as [es [Ha [Hc Hv]]].
    destruct (kubeletCondition nodeName r d p) as [res p'].
    cbn [fst snd] in Ha, Hv. subst res.
    destruct (round_panics r) as [v|].
    { exists es. split; [exact Ha|]. split; [exact Hc | reflexivity]. }
    destruct (round_driver nodeName r) as [driver|].
    + exists es. split; [exact Ha|]. split; [exact Hc | reflexivity].
    + destruct (IH p') as [fs [Hb [Hd Hw]]].
      exists (es ++ fs)%list. split; [exact (appends_trans _ _ _ _ _ Ha Hb)|].
      split; [rewrite config_calls_app, Hc, Hd; reflexivity | exact Hw].
Qed.

Lemma rounds_tried_bounds (nodeName : string) (r : round) (rounds : list round) :
  (1 <= rounds_tried nodeName (r :: rounds) <= 1 + List.length rounds)%nat.
Proof.
  revert r; induction rounds as [|r' rounds IH]; intros r;
    cbn [rounds_tried]; destruct (round_panics r);
    destruct (round_driver nodeName r); simpl; try lia;
    specialize (IH r'); simpl in IH; lia.
Qed.

Lemma rounds_tried_quiet (nodeName : string) (rounds : list round) :
  poll_result nodeName rounds = Returns None ->
  rounds_tried nodeName rounds = List.length rounds.
Proof.
  induction rounds as [|r rounds IH]; cbn [poll_result rounds_tried List.length];
    [reflexivity|].
  destruct (round_panics r); [discriminate|].
  destruct (round_driver nodeName r); [discriminate|].
  intros H. now rewrite IH.
Qed.

Lemma poll_result_valid (nodeName : string) (rounds : list round)
    (driver : CgroupDriverType) :
  poll_result nodeName rounds = Returns (Some driver) -> Validate driver = true.
Proof.
  induction rounds as [|r rounds IH]; cbn [poll_result]; [discriminate|].
  destruct (round_panics r); [discriminate|].
  destruct (round_driver nodeName r) as [d|] eqn:E; [|exact IH].
  intros H. injection H as <-. revert E. unfold round_driver.
  destruct (GetConfig r); [discriminate|].
  destruct (NewForConfigOrDie r); [discriminate|].
  destruct (NodesGet r nodeName) as [[port|] [e|]]; try discriminate.
  destruct (GuessCgroupDriverFromKubeletPort r port) as [d' [e|]]; [discriminate|].
  destruct (Validate d') eqn:Hv; [|discriminate].
  intros H. now injection H as <-.
Qed.

Lemma DetectCgroupDriverFromKubelet_run (h : host) (nodeName : string) (p : process) :
  fst (DetectCgroupDriverFromKubelet h nodeName p)
  = match poll_result nodeName (first_round h :: later_rounds h) with
    | Panics v => Panics v
    | Returns (Some driver) => Returns (driver, None)
    | Returns None => Returns ("", Some wait.ErrWaitTimeout)
    end
  /\ exists es,
       appends p (snd (DetectCgroupDriverFromKubelet h nodeName p)) es
       /\ config_calls es = rounds_tried nodeName (first_round h :: later_rounds h).
Proof.
  unfold DetectCgroupDriverFromKubelet, wait.PollImmediate, bind.
  destruct (poll_run nodeName (first_round h :: later_rounds h) "" p)
    as [es [Ha [Hc Hv]]].
  destruct (wait.poll (kubeletCondition nodeName)
              (first_round h :: later_rounds h) "" p) as [res p'].
  cbn [fst snd] in Ha, Hv. subst res.
  destruct (poll_result nodeName (first_round h :: later_rounds h)) as [[driver|]|v];
    cbn [fst snd ret];
    (split; [reflexivity|]); exists es; (split; [exact Ha | exact Hc]).
Qed.

Lemma DetectCgroupDriver_run (h : host) (p : process) :
  fst (DetectCgroupDriver h p)
  = (if Validate (GuessCgroupDriverFromCgroupName h)
     then Returns (GuessCgroupDriverFromCgroupName h)
     else match poll_result (NODE_NAME h) (first_round h :: later_rounds h) with
          | Panics v => Panics v
          | Returns (Some driver) => Returns driver
          | Returns None => Returns Systemd
          end)
  /\ exists es,
       appends p (snd (DetectCgroupDriver h p)) es
       /\ config_calls es
          = (if Validate (GuessCgroupDriverFromCgroupName h) then O
             else rounds_tried (NODE_NAME h) (first_round h :: later_rounds h)).
Proof.
  unfold DetectCgroupDriver, bind, klog.Infoln, klog.Infof, klog.Errorf.
  destruct (Validate (GuessCgroupDriverFromCgroupName h)) eqn:Hg.
  - cbn. split; [reflexivity|]. eexists. split; [split; [reflexivity|]|].
    + rewrite <- List.app_assoc. reflexivity.
    + reflexivity.
  - pose proof (appends_emit (Klog Info "start to get cgroup driver formatter...") p)
      as H1.
    destruct (emit (Klog Info "start to get cgroup driver formatter...") p)
      as [[] p1]. cbn [snd] in H1.
    pose proof (appends_emit
                  (Klog Info "can not detect cgroup driver from 'kubepods' cgroup name")
                  p1) as H2.
    destruct (emit (Klog Info "can not detect cgroup driver from 'kubepods' cgroup name")
                p1) as [[] p2]. cbn [snd] in H2.
    destruct (DetectCgroupDriverFromKubelet_run h (NODE_NAME h) p2)
      as [Hv [es [Ha Hc]]].
    destruct (DetectCgroupDriverFromKubelet h (NODE_NAME h) p2) as [res p3].
    cbn [fst snd] in Hv, Ha. subst res.
    pose proof (appends_trans _ _ _ _ _ (appends_trans _ _ _ _ _ H1 H2) Ha) as H123.
    destruct (poll_result (NODE_NAME h) (first_round h :: later_rounds h))
      as [[driver|]|v].
    + match goal with
      | |- context [emit ?e p3] => pose proof (appends_emit e p3) as H3;
                                   destruct (emit e p3) as [[] p4]
      end.
      cbn [fst snd ret] in *. split; [reflexivity|].
      eexists. split; [exact (appends_trans _ _ _ _ _ H123 H3)|].
      rewrite !config_calls_app, Hc. simpl. lia.
    + match goal with
      | |- context [emit ?e p3] => pose proof (appends_emit e p3) as H3;
                                   destruct (emit e p3) as [[] p4]
      end.
      cbn [fst snd ret] in *. split; [reflexivity|].
      eexists. split; [exact (appends_trans _ _ _ _ _ H123 H3)|].
      rewrite !config_calls_app, Hc. simpl. lia.
    + cbn [fst snd ret]. split; [reflexivity|].
      eexists. split; [exact H123|].
      rewrite !config_calls_app, Hc. simpl. lia.
Qed.

Lemma DetectCgroupDriver_returns_valid (h : host) (p : process)
    (driver : CgroupDriverType) :
  fst (DetectCgroupDriver h p) = Returns driver -> Validate driver = true.
Proof.
  destruct (DetectCgroupDriver_run h p) as [E _]. rewrite E.
  destruct (Validate (GuessCgroupDriverFromCgroupName h)) eqn:Hg.
  - intros H. now injection H as <-.
  - destruct (poll_result (NODE_NAME h) (first_round h :: later_rounds h))
      as [[d|]|v] eqn:Hf; intros H; try discriminate H; injection H as <-.
    + exact (poll_result_valid _ _ _ Hf).
    + reflexivity.
Qed.




(** [DetectCgroupDriverFromKubelet] ends as the first round of the poll that
    succeeds or panics decides: it returns the driver of a successful round
    with a nil error, it panics when a round finds a configuration from which
    no client can be built, and when every round fails quietly it returns the
    empty driver and the timeout error.  It calls [config.GetConfig] once per
    round tried: at least once, at most once per round there is.  It leaves
    the active formatter alone and only adds events. *)
Theorem DetectCgroupDriverFromKubelet_first_success (h : host) (nodeName : string)
    (p : process) :
  let rounds := first_round h :: later_rounds h in
  let r := DetectCgroupDriverFromKubelet h nodeName p in
  fst r = match poll_result nodeName rounds with
          | Panics v => Panics v
          | Returns (Some driver) => Returns (driver, None)
          | Returns None => Returns ("", Some wait.ErrWaitTimeout)
          end
  /\ exists es,
       appends p (snd r) es
       /\ config_calls es = rounds_tried nodeName rounds
       /\ (1 <= config_calls es <= 1 + List.length (later_rounds h))%nat.
Proof.
  cbv zeta.
  destruct (DetectCgroupDriverFromKubelet_run h nodeName p) as [Hv [es [Ha Hc]]].
  pose proof (rounds_tried_bounds nodeName (first_round h) (later_rounds h)) as Hb.
  split; [exact Hv|]. exists es. split; [exact Ha|]. split; [exact Hc|].
  rewrite Hc. exact Hb.
Qed.

(** Every pair [DetectCgroupDriverFromKubelet] returns is consistent: the
    error is nil exactly when the driver passes [Validate], and an error is
    always the timeout, coming with the empty driver. *)
Theorem DetectCgroupDriverFromKubelet_pair (h : host) (nodeName : string)
    (p : process) (driver : CgroupDriverType) (err : error) :
  fst (DetectCgroupDriverFromKubelet h nodeName p) = Returns (driver, err) ->
  (err = None <-> Validate driver = true)
  /\ (err = None \/ (err = Some wait.ErrWaitTimeout /\ driver = "")).
Proof.
  destruct (DetectCgroupDriverFromKubelet_run h nodeName p) as [E _]. rewrite E.
  destruct (poll_result nodeName (first_round h :: later_rounds h))
    as [[d|]|v] eqn:Hf; intros H; try discriminate H; injection H as <- <-.
  - pose proof (poll_result_valid _ _ _ Hf) as Hv.
    split; [split; auto | now left].
  - split; [split; discriminate | right; split; reflexivity].
Qed.

Lemma DetectCgroupDriverFromKubelet_pair_witness :
  fst (DetectCgroupDriverFromKubelet (node_with "" unreachable [unreachable])
         "node-1" (seeded cgroupPathFormatterInSystemd))
  = Returns ("", Some wait.ErrWaitTimeout)
  /\ (Some wait.ErrWaitTimeout = None <-> Validate "" = true).
Proof.
  assert (H : fst (DetectCgroupDriverFromKubelet (node_with "" unreachable [unreachable])
                     "node-1" (seeded cgroupPathFormatterInSystemd))
              = Returns ("", Some wait.ErrWaitTimeout)) by reflexivity.
  split; [exact H|].
  exact (proj1 (DetectCgroupDriverFromKubelet_pair _ _ _ _ _ H)).
Defined.



(** [DetectCgroupDriver] in closed form: it returns the guess from the
    cgroup names when that is valid; otherwise the first round of the kubelet
    poll that succeeds or panics decides, the driver of a successful round
    being returned and the panic of a round without client going through;
    when every round fails quietly it returns ["systemd"].  Every driver it
    returns passes [Validate].  With a valid guess no round is tried;
    otherwise [config.GetConfig] is called once per round tried.  The active
    formatter is not modified. *)
Theorem DetectCgroupDriver_closed_form (h : host) (p : process) :
  let rounds := first_round h :: later_rounds h in
  let guess := GuessCgroupDriverFromCgroupName h in
  let r := DetectCgroupDriver h p in
  fst r = (if Validate guess then Returns guess
           else match poll_result (NODE_NAME h) rounds with
                | Panics v => Panics v
                | Returns (Some driver) => Returns driver
                | Returns None => Returns Systemd
                end)
  /\ (forall driver : CgroupDriverType, fst r = Returns driver -> Validate driver = true)
  /\ exists es,
       appends p (snd r) es
       /\ config_calls es
          = (if Validate guess then O else rounds_tried (NODE_NAME h) rounds).
Proof.
  cbv zeta. destruct (DetectCgroupDriver_run h p) as [E [es [Ha Hc]]].
  split; [exact E|].
  split; [intros driver; apply DetectCgroupDriver_returns_valid|].
  exists es. split; [exact Ha | exact Hc].
Qed.

Lemma DetectCgroupDriver_closed_form_witness :
  fst (DetectCgroupDriver (node_with "" unreachable [reporting Systemd; clientless])
         (seeded cgroupPathFormatterInCgroupfs))
  = Returns Systemd
  /\ Validate Systemd = true.
Proof.
  assert (H : fst (DetectCgroupDriver
                     (node_with "" unreachable [reporting Systemd; clientless])
                     (seeded cgroupPathFormatterInCgroupfs))
              = Returns Systemd) by reflexivity.
  split; [exact H|].
  exact (proj1 (proj2 (DetectCgroupDriver_closed_form
                         (node_with "" unreachable [reporting Systemd; clientless])
                         (seeded cgroupPathFormatterInCgroupfs))) Systemd H).
Defined.

(** The fallback is never silent and never early: when the guess from the
    cgroup names is not valid and every round of the kubelet poll fails
    quietly (none succeeds, none panics), [DetectCgroupDriver] returns
    ["systemd"] after every round was tried, and the last event is the error
    line that names the timeout. *)
Theorem DetectCgroupDriver_fallback (h : host) (p : process) :
  Validate (GuessCgroupDriverFromCgroupName h) = false ->
  poll_result (NODE_NAME h) (first_round h :: later_rounds h) = Returns None ->
  fst (DetectCgroupDriver h p) = Returns Systemd
  /\ exists es,
       events (snd (DetectCgroupDriver h p))
       = (events p ++ es
          ++ [Klog Error
                ("can not detect cgroup driver from kubelet, use the default, err: "
                 ++ wait.ErrWaitTimeout)])%list
       /\ config_calls es = S (List.length (later_rounds h)).
Proof.
  intros Hg Hn.
  unfold DetectCgroupDriver, bind, klog.Infoln, klog.Infof, klog.Errorf.
  rewrite Hg.
  pose proof (appends_emit (Klog Info "start to get cgroup driver formatter...") p)
    as H1.
  destruct (emit (Klog Info "start to get cgroup driver formatter...") p)
    as [[] p1]. cbn [snd] in H1.
  pose proof (appends_emit
                (Klog Info "can not detect cgroup driver from 'kubepods' cgroup name")
                p1) as H2.
  destruct (emit (Klog Info "can not detect cgroup driver from 'kubepods' cgroup name")
              p1) as [[] p2]. cbn [snd] in H2.
  destruct (DetectCgroupDriverFromKubelet_run h (NODE_NAME h) p2)
    as [Hv [es [Ha Hc]]].
  destruct (DetectCgroupDriverFromKubelet h (NODE_NAME h) p2) as [res p3].
  cbn [fst snd] in Hv, Ha. rewrite Hn in Hv. subst res.
  rewrite (rounds_tried_quiet _ _ Hn) in Hc. cbn [List.length] in Hc.
  cbn [emit fst snd ret events]. split; [reflexivity|].
  pose proof (appends_trans _ _ _ _ _ (appends_trans _ _ _ _ _ H1 H2) Ha) as [_ E].
  eexists. split.
  - rewrite E, <- List.app_assoc. reflexivity.
  - rewrite !config_calls_app, Hc. reflexivity.
Qed.

Lemma DetectCgroupDriver_fallback_witness :
  Validate (GuessCgroupDriverFromCgroupName
              (node_with "" unreachable [unreachable; unreachable])) = false
  /\ poll_result "node-1" [unreachable; unreachable; unreachable] = Returns None
  /\ fst (DetectCgroupDriver (node_with "" unreachable [unreachable; unreachable])
            (seeded cgroupPathFormatterInCgroupfs))
     = Returns Systemd.
Proof.
  assert (H1 : Validate (GuessCgroupDriverFromCgroupName
                           (node_with "" unreachable [unreachable; unreachable]))
               = false) by reflexivity.
  assert (H2 : poll_result
                 (NODE_NAME (node_with "" unreachable [unreachable; unreachable]))
                 (first_round (node_with "" unreachable [unreachable; unreachable])
                  :: later_rounds (node_with "" unreachable [unreachable; unreachable]))
               = Returns None) by reflexivity.
  split; [exact H1|]. split; [exact H2|].
  exact (proj1 (DetectCgroupDriver_fallback
                  (node_with "" unreachable [unreachable; unreachable])
                  (seeded cgroupPathFormatterInCgroupfs) H1 H2)).
Defined.

(** Detecting and then binding the detected driver always takes effect:
    [SetupCgroupPathFormatter] never reaches its default case on a driver
    [DetectCgroupDriver] returns, so it adds no event, and the active
    formatter becomes the one [GetCgroupPathFormatter] returns for that
    driver, which is one of the two formatters. *)
Theorem DetectCgroupDriver_then_Setup (h : host) (p : process)
    (driver : CgroupDriverType) :
  fst (DetectCgroupDriver h p) = Returns driver ->
  let detected := snd (DetectCgroupDriver h p) in
  let bound := snd (SetupCgroupPathFormatter driver detected) in
  CgroupPathFormatter bound = fst (GetCgroupPathFormatter driver detected)
  /\ CgroupPathFormatter bound
     = (if (driver =? Cgroupfs)%string then cgroupPathFormatterInCgroupfs
        else cgroupPathFormatterInSystemd)
  /\ events bound = events detected.
Proof.
  intros H. cbv zeta.
  pose proof (DetectCgroupDriver_returns_valid h p driver H) as Hv.
  unfold SetupCgroupPathFormatter, GetCgroupPathFormatter, Validate in *.
  destruct (String.eqb_spec driver Systemd) as [->|Hs].
  - repeat split.
  - destruct (String.eqb_spec driver Cgroupfs) as [->|Hc]; [repeat split|].
    discriminate Hv.
Qed.

Lemma DetectCgroupDriver_then_Setup_witness :
  fst (DetectCgroupDriver (node_with "" unreachable [reporting Cgroupfs])
         (seeded cgroupPathFormatterInSystemd))
  = Returns Cgroupfs
  /\ CgroupPathFormatter
       (snd (SetupCgroupPathFormatter Cgroupfs
               (snd (DetectCgroupDriver (node_with "" unreachable [reporting Cgroupfs])
                       (seeded cgroupPathFormatterInSystemd)))))
     = cgroupPathFormatterInCgroupfs.
Proof.
  assert (H : fst (DetectCgroupDriver (node_with "" unreachable [reporting Cgroupfs])
                     (seeded cgroupPathFormatterInSystemd))
              = Returns Cgroupfs) by reflexivity.
  split; [exact H|].
  exact (proj1 (proj2 (DetectCgroupDriver_then_Setup _ _ _ H))).
Defined.

(** [SetupCgroupPathFormatter] and [GetCgroupPathFormatter] agree on the two
    valid drivers and differ on every other value, where the lookup answers
    with the systemd formatter while the setter keeps the active formatter.
    Hence after two calls of the setter the last valid driver decides. *)
Theorem SetupCgroupPathFormatter_last_valid (d1 d2 : CgroupDriverType) (p : process) :
  let slot (q : process) := CgroupPathFormatter q in
  (Validate d1 = true ->
   slot (snd (SetupCgroupPathFormatter d1 p)) = fst (GetCgroupPathFormatter d1 p)
   /\ events (snd (SetupCgroupPathFormatter d1 p)) = events p)
  /\ (Validate d1 = false ->
      slot (snd (SetupCgroupPathFormatter d1 p)) = slot p
      /\ fst (GetCgroupPathFormatter d1 p) = cgroupPathFormatterInSystemd)
  /\ slot (snd (SetupCgroupPathFormatter d2 (snd (SetupCgroupPathFormatter d1 p))))
     = (if Validate d2 then slot (snd (SetupCgroupPathFormatter d2 p))
        else slot (snd (SetupCgroupPathFormatter d1 p))).
Proof.
  cbv zeta. unfold SetupCgroupPathFormatter, GetCgroupPathFormatter, Validate.
  split; [|split].
  - destruct (d1 =? Systemd)%string; [intros _; split; reflexivity|].
    destruct (d1 =? Cgroupfs)%string; [intros _; split; reflexivity | discriminate].
  - destruct (d1 =? Systemd)%string; [rewrite orb_true_r; discriminate|].
    destruct (d1 =? Cgroupfs)%string; [discriminate | intros _; split; reflexivity].
  - destruct (d2 =? Systemd)%string; [rewrite orb_true_r; reflexivity|].
    destruct (d2 =? Cgroupfs)%string; reflexivity.
Qed.

Lemma SetupCgroupPathFormatter_last_valid_witness :
  Validate "none" = false
  /\ CgroupPathFormatter
       (snd (SetupCgroupPathFormatter "none" (seeded cgroupPathFormatterInCgroupfs)))
     = CgroupPathFormatter (seeded cgroupPathFormatterInCgroupfs)
  /\ fst (GetCgroupPathFormatter "none" (seeded cgroupPathFormatterInCgroupfs))
     = cgroupPathFormatterInSystemd.
Proof.
  assert (H : Validate "none" = false) by reflexivity.
  split; [exact H|].
  exact (proj1 (proj2 (SetupCgroupPathFormatter_last_valid "none" "none"
                         (seeded cgroupPathFormatterInCgroupfs))) H).
Defined.

(** [GetCgroupFormatter], which gives [CgroupPathFormatter] its initial
    value, returns the cgroupfs formatter exactly when the guess from the
    cgroup names is ["cgroupfs"] and the systemd formatter for every other
    guess, valid or not.  It never calls the cluster and writes at most one
    line, at info level.  When the guess is valid it is the formatter of the
    driver [DetectCgroupDriver] returns. *)
Theorem GetCgroupFormatter_seed (verbosity : Z) (h : host) (p : process) :
  let guess := GuessCgroupDriverFromCgroupName h in
  let r := GetCgroupFormatter verbosity h p in
  fst r = (if (guess =? Cgroupfs)%string then cgroupPathFormatterInCgroupfs
           else cgroupPathFormatterInSystemd)
  /\ (fst r = cgroupPathFormatterInCgroupfs <-> guess = Cgroupfs)
  /\ (exists es,
        appends p (snd r) es /\ only_info es = true
        /\ (List.length es <= 1)%nat)
  /\ (Validate guess = true ->
      forall q : process,
        fst (DetectCgroupDriver h q) = Returns guess
        /\ fst r = fst (GetCgroupPathFormatter guess (snd (DetectCgroupDriver h q)))).
Proof.
  cbv zeta.
  assert (Hd : forall q, Validate (GuessCgroupDriverFromCgroupName h) = true ->
                         fst (DetectCgroupDriver h q)
                         = Returns (GuessCgroupDriverFromCgroupName h)).
  { intros q Hv. destruct (DetectCgroupDriver_run h q) as [E _].
    now rewrite E, Hv. }
  assert (Hf : forall d q, fst (GetCgroupPathFormatter d q)
                           = if (d =? Cgroupfs)%string
                             then cgroupPathFormatterInCgroupfs
                             else cgroupPathFormatterInSystemd).
  { intros d q. unfold GetCgroupPathFormatter.
    destruct (String.eqb_spec d Systemd) as [->|]; [reflexivity|].
    destruct (d =? Cgroupfs)%string; reflexivity. }
  assert (E : fst (GetCgroupFormatter verbosity h p)
              = if (GuessCgroupDriverFromCgroupName h =? Cgroupfs)%string
                then cgroupPathFormatterInCgroupfs
                else cgroupPathFormatterInSystemd).
  { unfold GetCgroupFormatter, bind, klog.Infof, klog.V_Infof.
    destruct (Validate (GuessCgroupDriverFromCgroupName h)) eqn:Hv.
    - destruct (emit _ p) as [[] p1]. apply Hf.
    - unfold Validate in Hv. apply orb_false_iff in Hv. destruct Hv as [Hc _].
      rewrite Hc. destruct (4 <=? verbosity); reflexivity. }
  split; [exact E|]. split; [|split].
  - rewrite E.
    destruct (String.eqb_spec (GuessCgroupDriverFromCgroupName h) Cgroupfs)
      as [Hc|Hc]; split; auto; try congruence.
    intros H. symmetry in H. now apply formatters_differ in H.
  - unfold GetCgroupFormatter, bind, klog.Infof, klog.V_Infof,
      GetCgroupPathFormatter, Validate, appends.
    destruct (GuessCgroupDriverFromCgroupName h =? Cgroupfs)%string eqn:Hc.
    + apply String.eqb_eq in Hc. rewrite Hc. cbn.
      eexists. split; [split; reflexivity|]. split; [reflexivity | simpl; lia].
    + destruct (GuessCgroupDriverFromCgroupName h =? Systemd)%string; cbn.
      * eexists. split; [split; reflexivity|]. split; [reflexivity | simpl; lia].
      * destruct (4 <=? verbosity); cbn.
        -- eexists. split; [split; reflexivity|]. split; [reflexivity | simpl; lia].
        -- exists []. split; [split; [reflexivity | now rewrite List.app_nil_r]|].
           split; [reflexivity | simpl; lia].
  - intros Hv q. split; [exact (Hd q Hv)|]. now rewrite E, Hf.
Qed.

Lemma GetCgroupFormatter_seed_witness :
  Validate (GuessCgroupDriverFromCgroupName (node_with Cgroupfs unreachable [])) = true
  /\ fst (DetectCgroupDriver (node_with Cgroupfs unreachable [])
            (seeded cgroupPathFormatterInSystemd))
     = Returns Cgroupfs
  /\ fst (GetCgroupFormatter 0 (node_with Cgroupfs unreachable [])
            (seeded cgroupPathFormatterInSystemd))
     = fst (GetCgroupPathFormatter Cgroupfs
              (snd (DetectCgroupDriver (node_with Cgroupfs unreachable [])
                      (seeded cgroupPathFormatterInSystemd)))).
Proof.
  assert (H : Validate (GuessCgroupDriverFromCgroupName
                          (node_with Cgroupfs unreachable [])) = true)
    by reflexivity.
  split; [exact H|].
  exact (proj2 (proj2 (proj2
           (GetCgroupFormatter_seed 0 (node_with Cgroupfs unreachable [])
              (seeded cgroupPathFormatterInSystemd)))) H
           (seeded cgroupPathFormatterInSystemd)).
Defined.
